(** * godcr / dcrcli: wallet session lifecycle

    A shallow embedding of [cli] (createWallet, openWallet,
    attemptToCreateWallet, syncBlockChain) and of the shutdown machinery of
    [main.go] (beginShutdown, shutdownOps, opError, listenForShutdown,
    handleShutdown), with the properties of the specification stated and
    settled against it. *)

From Stdlib Require Import List NArith ZArith Bool Arith Lia.
From Stdlib Require String Ascii.
From Stdlib Require Import Sorted Permutation.
Import ListNotations.

Set Implicit Arguments.

(* ================================================================== *)
(** ** Go strings and the [strings] functions the validators call *)
(* ================================================================== *)

Module GoStrings.

Local Open Scope N_scope.

(** A Go string holding valid UTF-8 text is modelled by its sequence of
    runes (code points). *)
Definition rune := N.
Definition gostring := list rune.

Definition rune_eqb : rune -> rune -> bool := N.eqb.

Fixpoint string_eqb (s t : gostring) : bool :=
  match s, t with
  | [], [] => true
  | a :: s', b :: t' => rune_eqb a b && string_eqb s' t'
  | _, _ => false
  end.

(** Runes used by the literals of the program. *)
Definition r_quote : rune := 34.   (* the double quote *)
Definition r_space : rune := 32.
Definition r_K : rune := 75.
Definition r_N : rune := 78.
Definition r_O : rune := 79.
Definition r_Y : rune := 89.
Definition r_k : rune := 107.
Definition r_n : rune := 110.
Definition r_o : rune := 111.
Definition r_y : rune := 121.
Definition r_kelvin : rune := 8490. (* U+212A KELVIN SIGN *)
Definition r_long_s : rune := 383.  (* U+017F LATIN SMALL LETTER LONG S *)

Definition lit_OK : gostring := [r_O; r_K].
Definition lit_y : gostring := [r_y].
Definition lit_N : gostring := [r_N].

(** [unicode.IsSpace]: the Latin-1 spaces and the code points of category Z
    and property Pattern_White_Space that Go lists. *)
Definition isSpace (r : rune) : bool :=
  ((9 <=? r) && (r <=? 13)) || (r =? 32) || (r =? 133) || (r =? 160)
  || (r =? 5760) || ((8192 <=? r) && (r <=? 8202))
  || (r =? 8232) || (r =? 8233) || (r =? 8239) || (r =? 8287)
  || (r =? 12288).

(** [strings.TrimLeftFunc], [strings.TrimRightFunc], [strings.TrimFunc]. *)
Fixpoint TrimLeftFunc (f : rune -> bool) (s : gostring) : gostring :=
  match s with
  | [] => []
  | r :: t => if f r then TrimLeftFunc f t else s
  end.

Definition TrimRightFunc (f : rune -> bool) (s : gostring) : gostring :=
  rev (TrimLeftFunc f (rev s)).

Definition TrimFunc (f : rune -> bool) (s : gostring) : gostring :=
  TrimRightFunc f (TrimLeftFunc f s).

(** [strings.TrimSpace]. *)
Definition TrimSpace (s : gostring) : gostring := TrimFunc isSpace s.

(** [strings.Trim s cutset]: every leading and trailing rune that occurs in
    [cutset] is removed; an empty [s] or [cutset] returns [s]. *)
Definition inCutset (cutset : gostring) (r : rune) : bool :=
  existsb (rune_eqb r) cutset.

Definition Trim (s cutset : gostring) : gostring :=
  match s, cutset with
  | [], _ => s
  | _, [] => s
  | _, _ => TrimFunc (inCutset cutset) s
  end.

(** Simple case folding, as a canonical representative of the orbit of
    [unicode.SimpleFold]: exact on the orbits of the ASCII letters, which
    are {upper, lower} except for K (with U+212A) and S (with U+017F). *)
Definition foldRune (r : rune) : rune :=
  if (65 <=? r) && (r <=? 90) then r + 32
  else if r =? r_kelvin then r_k
  else if r =? r_long_s then 115
  else r.

(** [strings.EqualFold lit t], exact whenever [lit] is ASCII, which is
    the case at each call site of the program. *)
Fixpoint EqualFold (s t : gostring) : bool :=
  match s, t with
  | [], [] => true
  | a :: s', b :: t' => rune_eqb (foldRune a) (foldRune b) && EqualFold s' t'
  | _, _ => false
  end.

End GoStrings.

(* ================================================================== *)
(** ** Errors, the terminal, the middleware and the context *)
(* ================================================================== *)

Module Cli.

Import GoStrings.

(** The two values [ctx.Err()] can take once [ctx.Done()] is closed. *)
Inductive ctxError := Canceled | DeadlineExceeded.

(** Constant messages of the [fmt.Errorf] calls of the package. *)
Inductive errorText :=
| wallet_already_exists        (* "wallet already exists" *)
| passphrases_do_not_match     (* "passphrases do not match" *)
| invalid_response_try_again   (* "invalid response, try again" *)
| invalid_option_try_again     (* "invalid option, try again" *)
| Wallet_doesnt_exist          (* "Wallet doesn't exist" *)
| input_required.              (* rejection of the empty-input validator *)

(** A Go [error] value, by where it comes from. *)
Inductive error :=
| CtxErr (e : ctxError)        (* returned by ctx.Err() *)
| Errorf (t : errorText)       (* built by fmt.Errorf in this package *)
| MiddlewareErr (code : nat)   (* returned by a WalletMiddleware method *)
| InputErr.                    (* the terminal could not be read *)

Definition error_eq_dec (a b : error) : {a = b} + {a <> b}.
Proof. repeat decide equality. Defined.

(** Prompts shown by the package. *)
Inductive promptText :=
| Enter_private_passphrase     (* "Enter private passphrase for new wallet" *)
| Confirm_passphrase           (* "Confirm passphrase" *)
| backupPrompt                 (* Enter "OK" to continue. ... *)
| createWalletPrompt.          (* "No wallet found. Would you like to create one now? [y/N]" *)

(** Lines printed by the package, one constructor per print site. *)
Inductive printed :=
| Error_checking_wallet (net : gostring) (e : error)
| wallet_already_exists_line (net : gostring)
| Error_reading_input (e : error)
| Passphrases_do_not_match
| Error_generating_seed (e : error)
| seed_display (seed : gostring)
| Error_creating_wallet (e : error)
| wallet_created_successfully
| Looking_for_wallets
| errMsg_line (checking : bool) (net : gostring)
| err_line (e : error)
| Error_reading_your_response (e : error)
| Maybe_later_Bye
| Blockchain_sync_started
| Blockchain_synced_successfully
| Blockchain_sync_completed_with_error (e : error)
| Blockchain_sync_failed_to_start (e : error).

(** Observable effects, in the order in which they happen before the
    function that performs them returns. *)
Inductive Event :=
| CallWalletExists
| CallOpenWallet
| CallNetType
| CallGenerateNewWalletSeed
| CallCreateWallet (passphrase seed : gostring)
| CallSyncBlockChain (rescan : bool)
| Prompted (secure : bool) (p : promptText)
| Rejected (e : error)
| Stdout (l : printed)
| Stderr (l : printed)
| Abandoned.                   (* a spawned task is left running unobserved *)

(** What the middleware does during one [SyncBlockChain] call: the listener
    slots it invokes, in order. *)
Inductive SyncCallback :=
| SyncStarted
| SyncEnded (err : option nat)
| OnHeadersFetched (percentageProgress : Z)
| OnDiscoveredAddress (state : gostring)
| OnRescanningBlocks (percentageProgress : Z).

(** [app.WalletMiddleware]: an external collaborator, given by what each of
    its methods answers.  [loadLatency] is the number of ticks the existence
    check and the open take together ([None]: the call never returns);
    [syncLatency] the number of ticks until the sync task first has a value
    for its completion channel. *)
Record WalletMiddleware := {
  WalletExists : bool * option nat;
  OpenWallet : option nat;
  GenerateNewWalletSeed : gostring * option nat;
  CreateWallet : gostring -> gostring -> option nat;
  SyncBlockChain_during : list SyncCallback;  (* slots invoked before the call returns *)
  SyncBlockChain_result : option nat;         (* the call's return value *)
  SyncBlockChain_after : list SyncCallback;   (* slots invoked after it returned *)
  NetType : gostring;
  loadLatency : option nat;
  syncLatency : nat
}.

Definition mwErr (e : option nat) : option error :=
  option_map MiddlewareErr e.

(** [context.Context]: the tick at which [Done()] is closed, if ever, and
    the value [Err()] has from then on. *)
Record Context := {
  cancelAt : option nat;
  ctxErr : ctxError
}.

(** The terminal and the clock.  [stdin] holds the candidate lines the
    prompter hands to a validator, [coins] the choices a [select] makes when
    several of its cases are ready, [now] the current tick. *)
Record World := {
  stdin : list gostring;
  coins : list bool;
  now : nat;
  trace : list Event
}.

(** ** A state monad over [World] *)

Definition M (A : Type) : Type := World -> A * World.

Definition ret {A} (a : A) : M A := fun w => (a, w).

Definition bind {A B} (m : M A) (k : A -> M B) : M B :=
  fun w => let (a, w') := m w in k a w'.

Notation "x <- m ;; k" := (bind m (fun x => k))
  (at level 61, m at next level, right associativity).
Notation "m ;;; k" := (bind m (fun _ => k))
  (at level 61, right associativity).

Definition emit (e : Event) : M unit :=
  fun w => (tt, {| stdin := stdin w; coins := coins w; now := now w;
                   trace := trace w ++ [e] |}).

Definition emits (es : list Event) : M unit :=
  fun w => (tt, {| stdin := stdin w; coins := coins w; now := now w;
                   trace := trace w ++ es |}).

Definition Println (l : printed) : M unit := emit (Stdout l).
Definition Fprint_Stderr (l : printed) : M unit := emit (Stderr l).

(** A middleware call: logged, then answered. *)
Definition call {A} (e : Event) (answer : A) : M A :=
  emit e ;;; ret answer.

(** The result of a function that may wait forever. *)
Inductive Outcome :=
| Returns (err : option error)
| Blocks.

(** The middleware calls among some events. *)
Definition isCall (e : Event) : bool :=
  match e with
  | CallWalletExists | CallOpenWallet | CallNetType
  | CallGenerateNewWalletSeed | CallCreateWallet _ _
  | CallSyncBlockChain _ => true
  | _ => false
  end.

Definition calls (evs : list Event) : list Event := filter isCall evs.

(** The events of a sync attempt: the middleware call and printed lines. *)
Definition syncEvent (e : Event) : Prop :=
  e = CallSyncBlockChain true \/ (exists l, e = Stdout l) \/ (exists l, e = Stderr l).

(** ** The terminal prompter *)

(** A validator: [None] is Go's [nil]. *)
Definition ValidatorFunction := gostring -> option error.

(** Modelled from the spec: [terminalprompt.RequestInput] and
    [terminalprompt.RequestInputSecure] are not part of the visible source.
    The prompt is shown, a candidate line is read and handed to the
    validator; on rejection the prompt repeats, on acceptance the line is
    returned.  A terminal that has no more lines yields an input error. *)
Fixpoint promptLoop (secure : bool) (p : promptText) (validate : ValidatorFunction)
    (lines : list gostring) : (gostring * option error) * list gostring * list Event :=
  match lines with
  | [] => (([], Some InputErr), [], [Prompted secure p])
  | l :: rest =>
      match validate l with
      | None => ((l, None), rest, [Prompted secure p])
      | Some e =>
          let '(r, rest', evs) := promptLoop secure p validate rest in
          (r, rest', Prompted secure p :: Rejected e :: evs)
      end
  end.

Definition requestInput (secure : bool) (p : promptText) (validate : ValidatorFunction)
    : M (gostring * option error) :=
  fun w =>
    let '(r, rest, evs) := promptLoop secure p validate (stdin w) in
    (r, {| stdin := rest; coins := coins w; now := now w;
           trace := trace w ++ evs |}).

(** The prompts and rejections shown for the lines [pre], all rejected. *)
Definition rejections (secure : bool) (p : promptText) (validate : ValidatorFunction)
    (pre : list gostring) : list Event :=
  flat_map (fun l => match validate l with
                     | Some e => [Prompted secure p; Rejected e]
                     | None => []
                     end) pre.

Definition RequestInput := requestInput false.
Definition RequestInputSecure := requestInput true.

(** Modelled from the spec: [terminalprompt.EmptyValidator] is not part of
    the visible source; the spec has the passphrase prompt ask for a
    non-empty passphrase, so the validator rejects the empty line. *)
Definition EmptyValidator : ValidatorFunction :=
  fun input =>
    match input with
    | [] => Some (Errorf input_required)
    | _ => None
    end.

(** ** The two validators written in the package *)

(** The closure [backupValidator] of [createWallet]. *)
Definition backupValidator : ValidatorFunction :=
  fun userResponse =>
    let userResponse := TrimSpace userResponse in
    let userResponse := Trim userResponse [r_quote] in
    if EqualFold lit_OK userResponse then None
    else Some (Errorf invalid_response_try_again).

(** The closure [validateUserResponse] of [attemptToCreateWallet]. *)
Definition validateUserResponse : ValidatorFunction :=
  fun userResponse =>
    let userResponse := TrimSpace userResponse in
    let userResponse := Trim userResponse [r_quote] in
    if string_eqb userResponse [] || EqualFold lit_y userResponse
       || EqualFold lit_N userResponse
    then None
    else Some (Errorf invalid_option_try_again).

(** ** [select] over a completion channel and [ctx.Done()] *)

Inductive Winner := CtxDone | TaskDone.

(** The caller enters the [select] at tick [t].  The context case is ready
    from tick [max t c] when the context is done at [c]; the channel case
    is ready from tick [t + d] when the spawned task needs [d] ticks to
    reach its send.  The case that is ready first is taken; when both are
    ready at the same tick Go picks one of them at random, here by the next
    coin ([true]: the context case; the channel case when no coin is left).
    With no case ever ready the [select] waits forever.  The result is the
    winner, the tick at which the [select] returns and the coins left. *)
Definition race (ctx : Context) (taskLatency : option nat) (t : nat)
    (cs : list bool) : option Winner * nat * list bool :=
  let c := option_map (Nat.max t) (cancelAt ctx) in
  let d := option_map (Nat.add t) taskLatency in
  match c, d with
  | None, None => (None, t, cs)
  | Some c, None => (Some CtxDone, c, cs)
  | None, Some d => (Some TaskDone, d, cs)
  | Some c, Some d =>
      if c <? d then (Some CtxDone, c, cs)
      else if d <? c then (Some TaskDone, d, cs)
      else match cs with
           | [] => (Some TaskDone, c, [])
           | b :: rest => (Some (if b then CtxDone else TaskDone), c, rest)
           end
  end.

Definition select (ctx : Context) (taskLatency : option nat) : M (option Winner) :=
  fun w =>
    let '(winner, t, cs) := race ctx taskLatency (now w) (coins w) in
    (winner, {| stdin := stdin w; coins := cs; now := t; trace := trace w |}).

(** ** syncBlockChain *)

(** One step of a sync attempt as the spawned task sees it: a listener slot
    is invoked, or the middleware call returns. *)
Inductive SyncStep :=
| Slot (c : SyncCallback)
| Return (err : option nat).

Definition syncSteps (mw : WalletMiddleware) : list SyncStep :=
  map Slot (SyncBlockChain_during mw)
  ++ [Return (SyncBlockChain_result mw)]
  ++ map Slot (SyncBlockChain_after mw).

(** The values the task offers on the channel [syncDone], in order, each
    with the lines printed since the previous send.  [SyncEnded] prints and
    sends its argument; a non-nil return of the middleware call prints and
    sends that error; the three progress slots do nothing. *)
Fixpoint syncDone_sends (pending : list Event) (steps : list SyncStep)
    : list (list Event * option error) :=
  match steps with
  | [] => []
  | Slot SyncStarted :: r =>
      syncDone_sends (pending ++ [Stdout Blockchain_sync_started]) r
  | Slot (SyncEnded err) :: r =>
      match mwErr err with
      | None =>
          (pending ++ [Stdout Blockchain_synced_successfully], None)
          :: syncDone_sends [] r
      | Some e =>
          (pending ++ [Stderr (Blockchain_sync_completed_with_error e)], Some e)
          :: syncDone_sends [] r
      end
  | Slot (OnHeadersFetched _) :: r => syncDone_sends pending r
  | Slot (OnDiscoveredAddress _) :: r => syncDone_sends pending r
  | Slot (OnRescanningBlocks _) :: r => syncDone_sends pending r
  | Return err :: r =>
      match mwErr err with
      | None => syncDone_sends pending r
      | Some e =>
          (pending ++ [Stderr (Blockchain_sync_failed_to_start e)], Some e)
          :: syncDone_sends [] r
      end
  end.

Definition syncTask (mw : WalletMiddleware) : list (list Event * option error) :=
  syncDone_sends [CallSyncBlockChain true] (syncSteps mw).

(** The terminal error of a sync attempt: the argument of the first
    [SyncEnded], or the non-nil return of the middleware call when that
    comes first. *)
Fixpoint terminalError (steps : list SyncStep) : option (option error) :=
  match steps with
  | [] => None
  | Slot (SyncEnded err) :: _ => Some (mwErr err)
  | Return (Some code) :: _ => Some (Some (MiddlewareErr code))
  | _ :: r => terminalError r
  end.

(** [syncDone] is unbuffered and received from once: the [select] takes the
    first value offered, every later send finds no receiver. *)
Definition syncBlockChain (ctx : Context) (mw : WalletMiddleware) : M Outcome :=
  let syncDone := syncTask mw in
  winner <- select ctx (match syncDone with
                        | [] => None
                        | _ :: _ => Some (syncLatency mw)
                        end) ;;
  match winner, syncDone with
  | Some CtxDone, _ =>
      emit Abandoned ;;; ret (Returns (Some (CtxErr (ctxErr ctx))))
  | Some TaskDone, (evs, err) :: _ =>
      emits evs ;;; ret (Returns err)
  | _, _ => ret Blocks
  end.

(** ** createWallet *)

Definition displayWalletSeed (seed : gostring) : M unit :=
  Println (seed_display seed).

Definition createWallet (ctx : Context) (mw : WalletMiddleware) : M Outcome :=
  r <- call CallWalletExists (WalletExists mw) ;;
  let (walletExists, err) := r in
  match mwErr err with
  | Some e =>
      net <- call CallNetType (NetType mw) ;;
      Fprint_Stderr (Error_checking_wallet net e) ;;;
      ret (Returns (Some e))
  | None =>
  if walletExists then
    netType <- call CallNetType (NetType mw) ;;
    Fprint_Stderr (wallet_already_exists_line netType) ;;;
    ret (Returns (Some (Errorf wallet_already_exists)))
  else
  r <- RequestInputSecure Enter_private_passphrase EmptyValidator ;;
  let (passphrase, err) := r in
  match err with
  | Some e => Fprint_Stderr (Error_reading_input e) ;;; ret (Returns (Some e))
  | None =>
  r <- RequestInputSecure Confirm_passphrase EmptyValidator ;;
  let (confirmPassphrase, err) := r in
  match err with
  | Some e => Fprint_Stderr (Error_reading_input e) ;;; ret (Returns (Some e))
  | None =>
  if negb (string_eqb passphrase confirmPassphrase) then
    Fprint_Stderr Passphrases_do_not_match ;;;
    ret (Returns (Some (Errorf passphrases_do_not_match)))
  else
  r <- call CallGenerateNewWalletSeed (GenerateNewWalletSeed mw) ;;
  let (seed, err) := r in
  match mwErr err with
  | Some e => Fprint_Stderr (Error_generating_seed e) ;;; ret (Returns (Some e))
  | None =>
  displayWalletSeed seed ;;;
  r <- RequestInput backupPrompt backupValidator ;;
  match snd r with
  | Some e => Fprint_Stderr (Error_reading_input e) ;;; ret (Returns (Some e))
  | None =>
  err <- call (CallCreateWallet passphrase seed) (CreateWallet mw passphrase seed) ;;
  match mwErr err with
  | Some e => Fprint_Stderr (Error_creating_wallet e) ;;; ret (Returns (Some e))
  | None =>
  Println wallet_created_successfully ;;;
  syncBlockChain ctx mw
  end end end end end end.

(** The world after the prompter has read [n] lines that ended in an
    accepted one, showing [evs]. *)
Definition afterInput (rest : list gostring) (evs : list Event) (w : World) : World :=
  {| stdin := rest; coins := coins w; now := now w; trace := trace w ++ evs |}.

(** ** attemptToCreateWallet *)

Definition attemptToCreateWallet (ctx : Context) (mw : WalletMiddleware) : M Outcome :=
  r <- RequestInput createWalletPrompt validateUserResponse ;;
  let (userResponse, err) := r in
  match err with
  | Some e =>
      Fprint_Stderr (Error_reading_your_response e) ;;; ret (Returns (Some e))
  | None =>
      if string_eqb userResponse [] || EqualFold lit_N userResponse then
        Println Maybe_later_Bye ;;;
        ret (Returns (Some (Errorf Wallet_doesnt_exist)))
      else createWallet ctx mw
  end.

(** ** openWallet *)

(** The variables the spawned task shares with its caller. *)
Record LoadWallet := {
  err : option error;
  errMsg : option printed;       (* [None] is the empty string *)
  noWalletFound : bool
}.

(** The body of the goroutine; its deferred send on [loadWalletDone] makes
    what it did visible to the caller that receives. *)
Definition loadWalletTask (mw : WalletMiddleware) : M LoadWallet :=
  r <- call CallWalletExists (WalletExists mw) ;;
  let (walletExists, e) := r in
  match mwErr e with
  | Some e =>
      net <- call CallNetType (NetType mw) ;;
      ret {| err := Some e; errMsg := Some (errMsg_line true net);
             noWalletFound := false |}
  | None =>
      if negb walletExists then
        ret {| err := None; errMsg := None; noWalletFound := true |}
      else
        e <- call CallOpenWallet (OpenWallet mw) ;;
        match mwErr e with
        | Some e =>
            net <- call CallNetType (NetType mw) ;;
            ret {| err := Some e; errMsg := Some (errMsg_line false net);
                   noWalletFound := false |}
        | None => ret {| err := None; errMsg := None; noWalletFound := false |}
        end
  end.

Definition openWallet (ctx : Context) (mw : WalletMiddleware) : M Outcome :=
  Println Looking_for_wallets ;;;
  winner <- select ctx (loadLatency mw) ;;
  match winner with
  | None => ret Blocks
  | Some TaskDone =>
      v <- loadWalletTask mw ;;
      if noWalletFound v then attemptToCreateWallet ctx mw
      else
        match errMsg v with
        | Some l => Fprint_Stderr l
        | None => ret tt
        end ;;;
        match err v with
        | Some e => Fprint_Stderr (err_line e)
        | None => ret tt
        end ;;;
        ret (Returns (err v))
  | Some CtxDone =>
      emit Abandoned ;;; ret (Returns (Some (CtxErr (ctxErr ctx))))
  end.

End Cli.

(* ================================================================== *)
(** ** main.go: the shutdown machinery *)
(* ================================================================== *)

Module Main.

Import Cli.

(** The mode [main] dispatches to, from [appConfig.HTTPMode] and
    [appConfig.DesktopMode]. *)
Inductive Mode := HTTPMode | DesktopMode | CliMode.

(** An element of [shutdownOps], a [func()].  It returns nothing: whether
    it did its work ([ok]) is visible in what it does, not to its caller.
    [cancel] is the context's cancel function. *)
Inductive shutdownOp :=
| cancel
| CloseWallet (ok : bool)
| cleanup (id : nat) (ok : bool).

(** What the process prints or does, in order. *)
Inductive Output :=
| Received_signal_Shutting_down
| Already_shutting_down_Please_wait
| Ran (o : shutdownOp).

(** Where each of the three goroutines stands. *)
Inductive MainPC :=
| InMode                 (* inside the mode's blocking call *)
| MainSends              (* at [beginShutdown <- true] *)
| WgWait                 (* at [shutdownWaitGroup.Wait()] *)
| MainReturned.

Inductive ListenerPC :=
| AwaitSignal            (* at [sig := <-interruptChannel] *)
| ListenerSends          (* at [beginShutdown <- true] *)
| AwaitMoreSignals.      (* in the [for] loop *)

Inductive HandlerPC :=
| WgAdd                  (* at [wg.Add(1)] *)
| RecvBeginShutdown      (* at [<-beginShutdown] *)
| RunOps (rest : list shutdownOp)   (* in the [range shutdownOps] loop *)
| CheckOpError           (* after [wg.Done()], at [if opError != nil] *)
| HandlerReturned.

(** The package-level variables and the three program counters.
    [interruptChannel] is the number of signals buffered in the channel of
    capacity 1; [received] counts the receives on [beginShutdown];
    [exitStatus] is set when the process has exited. *)
Record State := {
  mode : Mode;
  mainPC : MainPC;
  listenerPC : ListenerPC;
  handlerPC : HandlerPC;
  shutdownOps : list shutdownOp;
  opError : option error;
  ctxDone : bool;
  wg : nat;
  interruptChannel : nat;
  received : nat;
  output : list Output;
  exitStatus : option nat
}.

(** The state once [main] has loaded its configuration, started the two
    goroutines and appended its hooks to [shutdownOps], and is about to
    enter the selected mode (in HTTP mode, with no stray argument left on
    the command line).  The handler has not yet run its [wg.Add(1)].  An
    action is one atomic step of one goroutine; any interleaving of the
    goroutines is an execution. *)
Definition init (m : Mode) (ops : list shutdownOp) : State :=
  {| mode := m; mainPC := InMode; listenerPC := AwaitSignal;
     handlerPC := WgAdd; shutdownOps := ops; opError := None;
     ctxDone := false; wg := 0; interruptChannel := 0; received := 0;
     output := []; exitStatus := None |}.

(** What can happen next. *)
Inductive Action :=
| Signal                           (* the OS delivers an interrupt *)
| ModeReturns (r : option error)   (* the mode's blocking call returns *)
| MainStep
| ListenerStep
| HandlerStep.

Definition isCancel (o : shutdownOp) : bool :=
  match o with cancel => true | _ => false end.

(** The handler receives on [beginShutdown] and enters its loop over the
    hooks registered so far. *)
Definition receive (s : State) : State :=
  {| mode := mode s; mainPC := mainPC s; listenerPC := listenerPC s;
     handlerPC := RunOps (shutdownOps s); shutdownOps := shutdownOps s;
     opError := opError s; ctxDone := ctxDone s; wg := wg s;
     interruptChannel := interruptChannel s; received := S (received s);
     output := output s; exitStatus := exitStatus s |}.

Definition setMain (pc : MainPC) (s : State) : State :=
  {| mode := mode s; mainPC := pc; listenerPC := listenerPC s;
     handlerPC := handlerPC s; shutdownOps := shutdownOps s;
     opError := opError s; ctxDone := ctxDone s; wg := wg s;
     interruptChannel := interruptChannel s; received := received s;
     output := output s; exitStatus := exitStatus s |}.

Definition setListener (pc : ListenerPC) (s : State) : State :=
  {| mode := mode s; mainPC := mainPC s; listenerPC := pc;
     handlerPC := handlerPC s; shutdownOps := shutdownOps s;
     opError := opError s; ctxDone := ctxDone s; wg := wg s;
     interruptChannel := interruptChannel s; received := received s;
     output := output s; exitStatus := exitStatus s |}.

Definition setHandler (pc : HandlerPC) (s : State) : State :=
  {| mode := mode s; mainPC := mainPC s; listenerPC := listenerPC s;
     handlerPC := pc; shutdownOps := shutdownOps s;
     opError := opError s; ctxDone := ctxDone s; wg := wg s;
     interruptChannel := interruptChannel s; received := received s;
     output := output s; exitStatus := exitStatus s |}.

Definition setOpError (e : option error) (s : State) : State :=
  {| mode := mode s; mainPC := mainPC s; listenerPC := listenerPC s;
     handlerPC := handlerPC s; shutdownOps := shutdownOps s;
     opError := e; ctxDone := ctxDone s; wg := wg s;
     interruptChannel := interruptChannel s; received := received s;
     output := output s; exitStatus := exitStatus s |}.

Definition setWg (n : nat) (s : State) : State :=
  {| mode := mode s; mainPC := mainPC s; listenerPC := listenerPC s;
     handlerPC := handlerPC s; shutdownOps := shutdownOps s;
     opError := opError s; ctxDone := ctxDone s; wg := n;
     interruptChannel := interruptChannel s; received := received s;
     output := output s; exitStatus := exitStatus s |}.

Definition setInterruptChannel (n : nat) (s : State) : State :=
  {| mode := mode s; mainPC := mainPC s; listenerPC := listenerPC s;
     handlerPC := handlerPC s; shutdownOps := shutdownOps s;
     opError := opError s; ctxDone := ctxDone s; wg := wg s;
     interruptChannel := n; received := received s;
     output := output s; exitStatus := exitStatus s |}.

Definition print (o : Output) (s : State) : State :=
  {| mode := mode s; mainPC := mainPC s; listenerPC := listenerPC s;
     handlerPC := handlerPC s; shutdownOps := shutdownOps s;
     opError := opError s; ctxDone := ctxDone s; wg := wg s;
     interruptChannel := interruptChannel s; received := received s;
     output := output s ++ [o]; exitStatus := exitStatus s |}.

Definition exit (code : nat) (s : State) : State :=
  {| mode := mode s; mainPC := mainPC s; listenerPC := listenerPC s;
     handlerPC := handlerPC s; shutdownOps := shutdownOps s;
     opError := opError s; ctxDone := ctxDone s; wg := wg s;
     interruptChannel := interruptChannel s; received := received s;
     output := output s; exitStatus := Some code |}.

(** Running one hook: it is called, and [cancel] closes [ctx.Done()]. *)
Definition runOp (o : shutdownOp) (s : State) : State :=
  let s := print (Ran o) s in
  if isCancel o then
    {| mode := mode s; mainPC := mainPC s; listenerPC := listenerPC s;
       handlerPC := handlerPC s; shutdownOps := shutdownOps s;
       opError := opError s; ctxDone := true; wg := wg s;
       interruptChannel := interruptChannel s; received := received s;
       output := output s; exitStatus := exitStatus s |}
  else s.

(** [main] right after the mode's blocking call returned [r]: the HTTP
    branch records it and signals only on an error with the context still
    live; the desktop branch has no result and does not signal; the command
    line branch records it and signals. *)
Definition afterMode (r : option error) (s : State) : State :=
  match mode s with
  | HTTPMode =>
      let s := setOpError r s in
      match opError s with
      | Some _ =>
          if negb (ctxDone s) then setMain MainSends s else setMain WgWait s
      | None => setMain WgWait s
      end
  | DesktopMode => setMain WgWait s
  | CliMode => setMain MainSends (setOpError r s)
  end.

(** One step of the process; [None] when the action cannot happen in [s]
    (the goroutine is blocked, or the process has exited).  [beginShutdown]
    is unbuffered: a send completes only against the handler's receive. *)
Definition step (a : Action) (s : State) : option State :=
  match exitStatus s with
  | Some _ => None
  | None =>
    match a with
    | Signal =>
        Some (if interruptChannel s =? 0 then setInterruptChannel 1 s else s)
    | ModeReturns r =>
        match mainPC s with
        | InMode => Some (afterMode r s)
        | _ => None
        end
    | MainStep =>
        match mainPC s with
        | MainSends =>
            match handlerPC s with
            | RecvBeginShutdown => Some (setMain WgWait (receive s))
            | _ => None
            end
        | WgWait =>
            if wg s =? 0 then Some (exit 0 (setMain MainReturned s)) else None
        | _ => None
        end
    | ListenerStep =>
        match listenerPC s with
        | AwaitSignal =>
            if interruptChannel s =? 0 then None
            else Some (setListener ListenerSends
                         (print Received_signal_Shutting_down
                            (setInterruptChannel 0 s)))
        | ListenerSends =>
            match handlerPC s with
            | RecvBeginShutdown => Some (setListener AwaitMoreSignals (receive s))
            | _ => None
            end
        | AwaitMoreSignals =>
            if interruptChannel s =? 0 then None
            else Some (print Already_shutting_down_Please_wait
                         (setInterruptChannel 0 s))
        end
    | HandlerStep =>
        match handlerPC s with
        | WgAdd => Some (setHandler RecvBeginShutdown (setWg (S (wg s)) s))
        | RecvBeginShutdown => None
        | RunOps (o :: rest) => Some (setHandler (RunOps rest) (runOp o s))
        | RunOps [] => Some (setHandler CheckOpError (setWg (pred (wg s)) s))
        | CheckOpError =>
            match opError s with
            | Some _ => Some (exit 1 s)
            | None => Some (setHandler HandlerReturned s)
            end
        | HandlerReturned => None
        end
    end
  end.

Fixpoint run (acts : list Action) (s : State) : option State :=
  match acts with
  | [] => Some s
  | a :: rest =>
      match step a s with
      | Some s' => run rest s'
      | None => None
      end
  end.

(** The states of some execution from [init m ops]. *)
Definition reachable (m : Mode) (ops : list shutdownOp) (s : State) : Prop :=
  exists acts, run acts (init m ops) = Some s.

(** The hooks that have been called, in call order. *)
Fixpoint hooksRun (out : list Output) : list shutdownOp :=
  match out with
  | [] => []
  | Ran o :: r => o :: hooksRun r
  | _ :: r => hooksRun r
  end.

(** The hooks the handler still has to call. *)
Definition hooksLeft (s : State) : list shutdownOp :=
  match handlerPC s with
  | WgAdd | RecvBeginShutdown => shutdownOps s
  | RunOps rest => rest
  | CheckOpError | HandlerReturned => []
  end.

(** What holds in every state of an execution from [init m ops]. *)
Definition Inv (m : Mode) (ops : list shutdownOp) (s : State) : Prop :=
  mode s = m
  /\ shutdownOps s = ops
  /\ hooksRun (output s) ++ hooksLeft s = ops
  /\ match handlerPC s with
     | WgAdd => received s = 0 /\ wg s = 0
     | RecvBeginShutdown => received s = 0 /\ wg s = 1
     | RunOps _ => received s = 1 /\ wg s = 1 /\ exitStatus s = None
     | CheckOpError | HandlerReturned => received s = 1 /\ wg s = 0
     end.

End Main.

(* ================================================================== *)
(** ** The specification's wording, for comparison with the code *)
(* ================================================================== *)

Module Spec.

Import GoStrings Cli.

Local Open Scope N_scope.

(** "stripping a single pair of surrounding double quotes": a string that
    starts and ends with a double quote loses these two runes, any other
    string is unchanged. *)
Definition stripQuotePair (s : gostring) : gostring :=
  match s with
  | q :: rest =>
      if rune_eqb q r_quote then
        match rev rest with
        | q' :: mid => if rune_eqb q' r_quote then rev mid else s
        | [] => s
        end
      else s
  | [] => s
  end.

(** The backup acknowledgment as the spec words it: equal to OK, case
    insensitively, after trimming whitespace and stripping one pair of
    surrounding double quotes. *)
Definition backup_accepts (s : gostring) : bool :=
  EqualFold lit_OK (stripQuotePair (TrimSpace s)).

(** The answers the spec lists for the create-wallet offer: empty, y, Y,
    N, n. *)
Definition offer_answers : list gostring :=
  [[]; [r_y]; [r_Y]; [r_N]; [r_n]].

(** The forms of OK under simple case folding. *)
Definition OK_forms : list gostring :=
  [[r_O; r_K]; [r_O; r_k]; [r_O; r_kelvin];
   [r_o; r_K]; [r_o; r_k]; [r_o; r_kelvin]].

End Spec.

(* ================================================================== *)
(** ** Concrete inputs used in examples *)
(* ================================================================== *)

Module Examples.

Import GoStrings Cli Main.

Local Open Scope N_scope.

Definition ex_OK : gostring := [79; 75].
Definition ex_ok : gostring := [111; 107].
Definition ex_padded_quoted_OK : gostring := [32; 32; 34; 79; 75; 34; 32; 32].
Definition ex_K : gostring := [75].
Definition ex_empty : gostring := [].
Definition ex_no : gostring := [110; 111].
Definition ex_doubly_quoted_OK : gostring := [34; 34; 79; 75; 34; 34].

Definition ex_abc123 : gostring := [97; 98; 99; 49; 50; 51].
Definition ex_abc124 : gostring := [97; 98; 99; 49; 50; 52].
Definition ex_seed : gostring := [115; 101; 101; 100].
Definition ex_testnet : gostring := [116; 101; 115; 116; 110; 101; 116].
Definition ex_y : gostring := [121].
Definition ex_n : gostring := [110].
Definition ex_padded_n : gostring := [32; 110; 32].
Definition ex_quoted_N : gostring := [34; 78; 34].
Definition ex_quoted_y : gostring := [34; 121; 34].
Definition ex_maybe : gostring := [109; 97; 121; 98; 101].

Local Close Scope N_scope.

(** A middleware with no wallet yet, whose sync ends without error. *)
Definition mw_no_wallet : WalletMiddleware :=
  {| WalletExists := (false, None);
     OpenWallet := None;
     GenerateNewWalletSeed := (ex_seed, None);
     CreateWallet := fun _ _ => None;
     SyncBlockChain_during := [];
     SyncBlockChain_result := None;
     SyncBlockChain_after := [SyncStarted; OnHeadersFetched 50%Z; SyncEnded None];
     NetType := ex_testnet;
     loadLatency := Some 2;
     syncLatency := 7 |}.

(** A middleware with a wallet that fails to open and a sync that fails to
    start. *)
Definition mw_failing : WalletMiddleware :=
  {| WalletExists := (true, None);
     OpenWallet := Some 13;
     GenerateNewWalletSeed := ([], Some 14);
     CreateWallet := fun _ _ => Some 15;
     SyncBlockChain_during := [];
     SyncBlockChain_result := Some 16;
     SyncBlockChain_after := [];
     NetType := ex_testnet;
     loadLatency := Some 4;
     syncLatency := 1 |}.

Definition ctx_live : Context := {| cancelAt := None; ctxErr := Canceled |}.
Definition ctx_cancelled_at (c : nat) : Context :=
  {| cancelAt := Some c; ctxErr := Canceled |}.

Definition terminal (lines : list gostring) : World :=
  {| stdin := lines; coins := []; now := 0; trace := [] |}.

(** Three hooks, the second of which fails at its work. *)
Definition ex_ops : list shutdownOp := [cancel; CloseWallet false; cleanup 7 true].

(** The hooks [main] registers. *)
Definition main_ops : list shutdownOp := [cancel; CloseWallet true].

(** An interrupt arrives and is taken by the handler, which calls the
    first hook. *)
Definition ex_interrupted : list Action :=
  [HandlerStep; Signal; ListenerStep; ListenerStep; HandlerStep].

(** After an interrupt was taken, the command line mode returns. *)
Definition ex_interrupt_then_return : list Action :=
  [HandlerStep; Signal; ListenerStep; ListenerStep;
   ModeReturns (Some (CtxErr Canceled))].

(** The command line mode returns an error, the handler takes main's
    signal, calls both hooks and [wg.Done()], and then [main] runs before
    the handler does. *)
Definition ex_main_returns_first : list Action :=
  [HandlerStep; ModeReturns (Some (MiddlewareErr 13)); MainStep;
   HandlerStep; HandlerStep; HandlerStep; MainStep].

(** The same, the handler running before [main] after [wg.Done()]. *)
Definition ex_handler_checks_first : list Action :=
  [HandlerStep; ModeReturns (Some (MiddlewareErr 13)); MainStep;
   HandlerStep; HandlerStep; HandlerStep; HandlerStep].

(** The states these executions end in. *)
Definition after (acts : list Action) (s : State) : State :=
  match run acts s with
  | Some s' => s'
  | None => s
  end.

Definition ex_interrupted_state : State :=
  Eval vm_compute in after ex_interrupted (init CliMode ex_ops).

Definition ex_blocked_state : State :=
  Eval vm_compute in after ex_interrupt_then_return (init CliMode main_ops).

Definition ex_exit0_state : State :=
  Eval vm_compute in after ex_main_returns_first (init CliMode main_ops).

Definition ex_exit1_state : State :=
  Eval vm_compute in after ex_handler_checks_first (init CliMode main_ops).

Definition ex_http_error_state : State :=
  Eval vm_compute in
    after [HandlerStep; ModeReturns (Some (MiddlewareErr 13))]
      (init HTTPMode main_ops).

End Examples.

(* ================================================================== *)
(** ** Further invariants of the shutdown machinery *)
(* ================================================================== *)

Module MainInvariants.

Import Cli Main.

(** How often each of the listener's two lines has been printed. *)
Fixpoint receivedLines (out : list Output) : nat :=
  match out with
  | [] => 0
  | Received_signal_Shutting_down :: r => S (receivedLines r)
  | _ :: r => receivedLines r
  end.

Fixpoint alreadyLines (out : list Output) : nat :=
  match out with
  | [] => 0
  | Already_shutting_down_Please_wait :: r => S (alreadyLines r)
  | _ :: r => alreadyLines r
  end.

(** The process exits with status 0 by [main] returning from its [Wait],
    with status 1 by the handler's [os.Exit(1)], and in no other way. *)
Definition ExitInv (s : State) : Prop :=
  match exitStatus s with
  | None => True
  | Some 0 => mainPC s = MainReturned /\ wg s = 0
  | Some 1 => handlerPC s = CheckOpError /\ opError s <> None
  | Some _ => False
  end.

(** [ctx.Done()] is closed by the cancel hook and by nothing else. *)
Definition CtxInv (s : State) : Prop :=
  ctxDone s = true <-> In cancel (hooksRun (output s)).

(** The listener prints its first line once, when it takes the first
    interrupt, and its second line only in its loop. *)
Definition ListenerInv (s : State) : Prop :=
  match listenerPC s with
  | AwaitSignal =>
      receivedLines (output s) = 0 /\ alreadyLines (output s) = 0
  | ListenerSends =>
      receivedLines (output s) = 1 /\ alreadyLines (output s) = 0
  | AwaitMoreSignals => receivedLines (output s) = 1 /\ received s = 1
  end.

(** In desktop mode nothing is recorded in opError and [main] never
    sends: a receive on beginShutdown is the listener's. *)
Definition DesktopInv (s : State) : Prop :=
  mode s = DesktopMode ->
  opError s = None
  /\ mainPC s <> MainSends
  /\ (received s = 1 -> listenerPC s = AwaitMoreSignals).

Definition Inv2 (m : Mode) (ops : list shutdownOp) (s : State) : Prop :=
  Inv m ops s /\ ExitInv s /\ CtxInv s /\ ListenerInv s /\ DesktopInv s.

End MainInvariants.

(* ================================================================== *)
(** ** The history and receive commands *)
(* ================================================================== *)

Module Commands.

Import GoStrings.
Import String.StringSyntax.
Delimit Scope string_scope with string.

(** A string literal of the source as a Go string. *)
Fixpoint lit (s : String.string) : gostring :=
  match s with
  | String.EmptyString => []
  | String.String c r => Ascii.N_of_ascii c :: lit r
  end.

(** An error of a command: one returned by a collaborator, or one built by
    [fmt.Errorf(prefix + "%s", err.Error())]. *)
Inductive cmdError :=
| External (code : nat)
| Errorf (prefix : gostring) (inner : cmdError).

(** The outcome of a command: its error result, or a run-time panic. *)
Inductive result :=
| Returned (err : option cmdError)
| Panicked.

Section Tables.

(** The dynamic values a table cell can hold besides strings. *)
Variable V : Type.

Inductive cell :=
| Str (s : gostring)
| Val (v : V).

(** The fields of [walletrpcclient.Transaction] the history command reads. *)
Record Transaction := {
  FormattedTime : V;
  Amount : V;
  Direction : V;
  Hash : V;
  Type_ : V
}.

Record ReceiveResult := { Address : gostring }.

(** [walletrpcclient.Client], by what its methods answer. *)
Record Client := {
  GetTransactions : list Transaction * option nat;
  AccountNumber : gostring -> N * option nat;
  Receive : N -> ReceiveResult * option nat
}.


Inductive Event :=
| CallGetTransactions
| CallGetSendSourceAccount
| CallAccountNumber (name : gostring)
| CallReceive (accountNumber : N)
| CallQrcodeNew (address : gostring)
| PrintTabularResult (columns : list gostring) (rows : list (list cell)).

(** [rows\[i\] = v]: a panic when [i] is out of range. *)
Definition setIndex {A} (rows : list A) (i : nat) (v : A) : option (list A) :=
  if i <? length rows then Some (firstn i rows ++ v :: skipn (S i) rows)
  else None.

Definition historyColumns : list gostring :=
  [lit "Date"%string; lit "Amount (DCR)"%string; lit "Direction"%string; lit "Hash"%string; lit "Type"%string].

Definition historyRow (tx : Transaction) : list cell :=
  [Val (FormattedTime tx); Val (Amount tx); Val (Direction tx);
   Val (Hash tx); Val (Type_ tx)].

(** The loop [for i, tx := range transactions] from index [i] on. *)
Fixpoint fillRows (transactions : list Transaction) (i : nat)
    (rows : list (list cell)) : option (list (list cell)) :=
  match transactions with
  | [] => Some rows
  | tx :: rest =>
      match setIndex rows i (historyRow tx) with
      | Some rows' => fillRows rest (S i) rows'
      | None => None
      end
  end.

(** [HistoryCommand.Run]. *)
Definition HistoryCommand_Run (client : Client) : result * list Event :=
  let (transactions, err) := GetTransactions client in
  match err with
  | Some e => (Returned (Some (External e)), [CallGetTransactions])
  | None =>
      let rows := repeat [] (length transactions) in
      match fillRows transactions 0 rows with
      | Some rows =>
          (Returned None,
           [CallGetTransactions; PrintTabularResult historyColumns rows])
      | None => (Panicked, [CallGetTransactions])
      end
  end.



End Tables.

End Commands.

(* ================================================================== *)
(** ** main.go: the command line entry and its helpers *)
(* ================================================================== *)

Module MainFunctions.

Import GoStrings Commands.
Import String.StringSyntax.
Delimit Scope string_scope with string.

(** [flags.Command]: its name, the sub-command selected by parsing, and
    its registered sub-commands. *)
#[local] Unset Elimination Schemes.
Inductive Command :=
| mkCommand (Name : gostring) (Active : option Command)
            (registered : list Command).
#[local] Set Elimination Schemes.

Definition Name (c : Command) : gostring :=
  match c with mkCommand n _ _ => n end.

Definition Active (c : Command) : option Command :=
  match c with mkCommand _ a _ => a end.

(** [command.Commands()]. *)
Definition Commands (c : Command) : list Command :=
  match c with mkCommand _ _ l => l end.

(** The order of Go strings: lexicographic. *)
Fixpoint string_leb (s t : gostring) : bool :=
  match s, t with
  | [], _ => true
  | _ :: _, [] => false
  | a :: s', b :: t' =>
      if (a <? b)%N then true
      else if (b <? a)%N then false
      else string_leb s' t'
  end.

(** [sort.Strings]: the slice in increasing order. *)
Fixpoint insertString (x : gostring) (l : list gostring) : list gostring :=
  match l with
  | [] => [x]
  | y :: r => if string_leb x y then x :: l else y :: insertString x r
  end.

Definition sort_Strings (l : list gostring) : list gostring :=
  fold_right insertString [] l.

(** [supportedCommands]. *)
Definition supportedCommands (parser : Command) : list gostring :=
  let registeredCommands := Commands parser in
  let commandNames :=
    fold_left (fun names command => names ++ [Name command])
      registeredCommands [] in
  sort_Strings commandNames.

(** [strings.Join]. *)
Fixpoint Join (elems : list gostring) (sep : gostring) : gostring :=
  match elems with
  | [] => []
  | [x] => x
  | x :: r => x ++ sep ++ Join r sep
  end.

(** The type of a [flags.Error], as far as the program tests it. *)
Inductive ErrorType := ErrHelp | ErrCommandRequired | ErrOther (n : nat).

(** An error of [parser.Parse()]. *)
Inductive parseError :=
| FlagsError (t : ErrorType) (message : gostring)
| OtherError (code : nat).

(** [flags.Parser]: its options, a bit set, and its root command. *)
Record Parser := {
  Options : N;
  Command_ : Command
}.

(** What the helpers print. *)
Inductive Out :=
| Println_error (e : parseError)            (* fmt.Println(err) *)
| WriteHelp (p : Parser)                    (* parser.WriteHelp(os.Stderr) *)
| Printf_To_view_application_options (appName : gostring)
| Fprintln_Available_Commands (joined : gostring).

(** What [enterCliMode] does besides printing. *)
Inductive Step :=
| SetWalletSource
| CliCreateWallet
| CliOpenWallet
| CliSyncBlockChain
| Output (o : Out).

Record Config := {
  CreateWallet : bool;
  SyncBlockchain : bool
}.

Section Flags.

(** The option bits of go-flags and [config.IsFlagErrorType], neither of
    which is part of the visible source. *)
Variables flags_None HelpFlag PassDoubleDash PrintErrors : N.
Variable IsFlagErrorType : parseError -> ErrorType -> bool.

(** [flags.NewParser(nil, options)], named and given an active command. *)
Definition printCommandHelp (appName : gostring) (command : Command) : list Out :=
  let helpParser :=
    {| Options := HelpFlag;
       Command_ := mkCommand appName (Some command) [] |} in
  [WriteHelp helpParser; Printf_To_view_application_options appName].

Definition handleParseError (err : option parseError) (parser : Parser) : list Out :=
  match err with
  | None => []
  | Some e =>
      if negb (N.land (Options parser) PrintErrors =? flags_None)%N then []
      else if negb (IsFlagErrorType e ErrHelp) then [Println_error e]
      else match Active (Command_ parser) with
           | None => [WriteHelp parser]
           | Some active => printCommandHelp (Name (Command_ parser)) active
           end
  end.

(** [enterCliMode], the one that may create a wallet and sync first.
    [parsed] is the parser's root command as [parser.Parse()] leaves it and
    [err] the error it returns.  The result is what was done and the exit
    status when the process is made to exit. *)
Definition enterCliMode (appConfig : Config) (parsed : Command)
    (err : option parseError) : list Step * option nat :=
  let steps := [SetWalletSource] in
  let '(steps, appConfig) :=
    if CreateWallet appConfig
    then (steps ++ [CliCreateWallet],
          {| CreateWallet := CreateWallet appConfig; SyncBlockchain := true |})
    else (steps, appConfig) in
  let steps :=
    if SyncBlockchain appConfig
    then steps ++ [CliOpenWallet; CliSyncBlockChain]
    else steps in
  let parser :=
    {| Options := N.lor HelpFlag PassDoubleDash; Command_ := parsed |} in
  match err with
  | None => (steps, None)
  | Some e =>
      if IsFlagErrorType e ErrCommandRequired then
        let availableCommands :=
          match Active (Command_ parser) with
          | Some active => supportedCommands active
          | None => supportedCommands (Command_ parser)
          end in
        (steps ++ [Output (Fprintln_Available_Commands
                             (Join availableCommands (lit ", "%string)))],
         Some 1)
      else
        (steps ++ map Output (handleParseError (Some e) parser), Some 1)
  end.

End Flags.

(** The wallet steps among what was done. *)
Definition walletSteps (steps : list Step) : list Step :=
  filter (fun st => match st with
                    | CliCreateWallet | CliOpenWallet | CliSyncBlockChain => true
                    | _ => false
                    end) steps.

Definition outputs (steps : list Step) : list Out :=
  flat_map (fun st => match st with Output o => [o] | _ => [] end) steps.

End MainFunctions.

Module CoverageExamples.

Import Cli Main Examples.

(** The command line mode returns, main's signal is taken, and then an
    interrupt arrives and is taken by the listener. *)
Definition ex_return_then_interrupt : list Action :=
  [HandlerStep; ModeReturns None; MainStep; Signal; ListenerStep].

Definition ex_listener_blocked_state : State :=
  Eval vm_compute in after ex_return_then_interrupt (init CliMode main_ops).

(** Desktop mode: the desktop application returns, and later an interrupt
    starts the shutdown. *)
Definition ex_desktop_interrupted : list Action :=
  [HandlerStep; ModeReturns (Some (MiddlewareErr 13)); Signal; ListenerStep;
   ListenerStep; HandlerStep].

Definition ex_desktop_state : State :=
  Eval vm_compute in after ex_desktop_interrupted (init DesktopMode main_ops).

(** The handler waits on beginShutdown while the mode runs. *)
Definition ex_waiting_state : State :=
  Eval vm_compute in after [HandlerStep] (init HTTPMode ex_ops).

(** The option bits of go-flags, and a test of an error's type. *)
Definition ex_None : N := 0.
Definition ex_HelpFlag : N := 2.
Definition ex_PassDoubleDash : N := 4.
Definition ex_PrintErrors : N := 16.

Definition ex_IsFlagErrorType (e : MainFunctions.parseError)
    (t : MainFunctions.ErrorType) : bool :=
  match e, t with
  | MainFunctions.FlagsError MainFunctions.ErrHelp _, MainFunctions.ErrHelp => true
  | MainFunctions.FlagsError MainFunctions.ErrCommandRequired _,
    MainFunctions.ErrCommandRequired => true
  | MainFunctions.FlagsError (MainFunctions.ErrOther n) _,
    MainFunctions.ErrOther n' => Nat.eqb n n'
  | _, _ => false
  end.

(** A root command with three sub-commands, none selected. *)
Definition ex_root : MainFunctions.Command :=
  MainFunctions.mkCommand [100; 99; 114]%N None
    [MainFunctions.mkCommand [115; 101; 110; 100]%N None [];
     MainFunctions.mkCommand [104; 105; 115; 116; 111; 114; 121]%N None [];
     MainFunctions.mkCommand [114; 101; 99; 101; 105; 118; 101]%N None []].

Definition ex_help_parser : MainFunctions.Parser :=
  {| MainFunctions.Options := N.lor ex_HelpFlag ex_PassDoubleDash;
     MainFunctions.Command_ := ex_root |}.

End CoverageExamples.

(* ================================================================== *)
(** ** Properties of the string functions and validators *)
(* ================================================================== *)

Module ValidatorFacts.

Import GoStrings Cli Spec Examples.

Local Open Scope N_scope.

Lemma string_eqb_spec (s t : gostring) : string_eqb s t = true <-> s = t.
Proof.
  revert t; induction s as [|a s IH]; intros [|b t]; simpl; split;
    try congruence; try reflexivity.
  - intros H. apply andb_true_iff in H as [Hab Hst].
    apply N.eqb_eq in Hab. apply IH in Hst. congruence.
  - intros H. injection H as -> ->. apply andb_true_iff. split.
    + apply N.eqb_refl.
    + now apply IH.
Qed.

Lemma string_eqb_refl (s : gostring) : string_eqb s s = true.
Proof. now apply string_eqb_spec. Qed.

Lemma string_eqb_neq (s t : gostring) : s <> t -> string_eqb s t = false.
Proof.
  intros H. destruct (string_eqb s t) eqn:E; [|reflexivity].
  apply string_eqb_spec in E. contradiction.
Qed.

(** Which runes fold to a given lower-case ASCII letter. *)
Ltac fold_cases r :=
  unfold foldRune, r_kelvin, r_long_s, r_k;
  destruct ((65 <=? r) && (r <=? 90)) eqn:Hup;
  [ apply andb_true_iff in Hup as [H1 H2];
    apply N.leb_le in H1; apply N.leb_le in H2
  | destruct (r =? 8490) eqn:Hk;
    [ apply N.eqb_eq in Hk
    | destruct (r =? 383) eqn:Hs; [ apply N.eqb_eq in Hs | ] ] ].

Lemma foldRune_o (r : rune) : foldRune r = 111 <-> r = r_O \/ r = r_o.
Proof.
  unfold r_O, r_o. split.
  - fold_cases r; intros H; lia.
  - intros [-> | ->]; reflexivity.
Qed.

Lemma foldRune_k (r : rune) :
  foldRune r = 107 <-> r = r_K \/ r = r_k \/ r = r_kelvin.
Proof.
  unfold r_K. split.
  - fold_cases r; intros H; unfold r_kelvin, r_k; lia.
  - intros [-> | [-> | ->]]; reflexivity.
Qed.

Lemma foldRune_y (r : rune) : foldRune r = 121 <-> r = r_Y \/ r = r_y.
Proof.
  unfold r_Y, r_y. split.
  - fold_cases r; intros H; lia.
  - intros [-> | ->]; reflexivity.
Qed.

Lemma foldRune_n (r : rune) : foldRune r = 110 <-> r = r_N \/ r = r_n.
Proof.
  unfold r_N, r_n. split.
  - fold_cases r; intros H; lia.
  - intros [-> | ->]; reflexivity.
Qed.

Ltac equalfold_shape x :=
  unfold lit_OK, lit_y, lit_N;
  destruct x as [|?a [|?b [|?c x]]]; cbn [EqualFold]; unfold rune_eqb;
  rewrite ?andb_true_r, ?andb_false_r; try discriminate.

Lemma EqualFold_OK (x : gostring) :
  EqualFold lit_OK x = true <-> In x OK_forms.
Proof.
  split.
  - equalfold_shape x.
    intros H. apply andb_true_iff in H as [Ha Hb].
    apply N.eqb_eq in Ha, Hb. symmetry in Ha, Hb.
    change (foldRune r_O) with 111 in Ha. change (foldRune r_K) with 107 in Hb.
    apply foldRune_o in Ha. apply foldRune_k in Hb.
    destruct Ha as [-> | ->]; destruct Hb as [-> | [-> | ->]]; simpl; tauto.
  - intros H. simpl in H.
    repeat (destruct H as [<- | H]; [reflexivity|]). contradiction.
Qed.

Lemma EqualFold_y (x : gostring) :
  EqualFold lit_y x = true <-> x = [r_y] \/ x = [r_Y].
Proof.
  split.
  - equalfold_shape x.
    intros H. apply N.eqb_eq in H. symmetry in H.
    change (foldRune r_y) with 121 in H. apply foldRune_y in H.
    destruct H as [-> | ->]; tauto.
  - intros [-> | ->]; reflexivity.
Qed.

Lemma EqualFold_N (x : gostring) :
  EqualFold lit_N x = true <-> x = [r_N] \/ x = [r_n].
Proof.
  split.
  - equalfold_shape x.
    intros H. apply N.eqb_eq in H. symmetry in H.
    change (foldRune r_N) with 110 in H. apply foldRune_n in H.
    destruct H as [-> | ->]; tauto.
  - intros [-> | ->]; reflexivity.
Qed.

Lemma stripQuotePair_inv (t x : gostring) :
  stripQuotePair t = x -> t = x \/ t = r_quote :: x ++ [r_quote].
Proof.
  unfold stripQuotePair. destruct t as [|q rest]; [auto|].
  unfold rune_eqb. destruct (q =? r_quote) eqn:Hq; [|auto].
  apply N.eqb_eq in Hq. subst q.
  destruct (rev rest) as [|q' mid] eqn:Hrev; [auto|].
  destruct (q' =? r_quote) eqn:Hq'; [|auto].
  apply N.eqb_eq in Hq'. subst q'. intros <-. right.
  rewrite <- (rev_involutive rest), Hrev. reflexivity.
Qed.

(** The prompter returns the first accepted line and shows one prompt per
    line it read. *)
Lemma promptLoop_first_accepted secure p (validate : ValidatorFunction) pre l rest :
  Forall (fun x => validate x <> None) pre ->
  validate l = None ->
  promptLoop secure p validate (pre ++ l :: rest)
  = ((l, None), rest, rejections secure p validate pre ++ [Prompted secure p]).
Proof.
  intros Hpre Hl. induction Hpre as [|x pre Hx Hpre IH]; simpl.
  - now rewrite Hl.
  - destruct (validate x) as [e|] eqn:Ex; [|congruence].
    rewrite IH. reflexivity.
Qed.

Lemma rejections_prompts secure p (validate : ValidatorFunction) pre :
  Forall (fun x => validate x <> None) pre ->
  length (filter (fun e => match e with Prompted _ _ => true | _ => false end)
            (rejections secure p validate pre)) = length pre.
Proof.
  induction 1 as [|x pre Hx Hpre IH]; simpl; [reflexivity|].
  destruct (validate x) as [e|] eqn:Ex; [|congruence].
  simpl. now rewrite IH.
Qed.

(** C4, as stated, fails: the doubly quoted OK is accepted by the code,
    while trimming and stripping one pair of quotes leaves a quoted OK,
    which is not equal to OK. *)
Lemma backupValidator_not_single_pair :
  ~ (forall s, backupValidator s = None <-> backup_accepts s = true).
Proof.
  intros H. specialize (H ex_doubly_quoted_OK).
  assert (Hc : backupValidator ex_doubly_quoted_OK = None) by reflexivity.
  apply H in Hc. vm_compute in Hc. discriminate.
Qed.

(** C4, amended: the backup validator accepts exactly the inputs that,
    after trimming surrounding whitespace and then removing every leading
    and trailing double quote, are one of the case variants of OK; every
    input accepted under the one-pair reading is among them; OK, ok and the
    padded, quoted OK are accepted and K, the empty line and no rejected;
    the prompter shows the prompt again after each rejected line and
    returns the first accepted one. *)
Theorem backupValidator_accepts :
  (forall s, backupValidator s = None
             <-> In (Trim (TrimSpace s) [r_quote]) OK_forms)
  /\ (forall s, backup_accepts s = true -> backupValidator s = None)
  /\ (backupValidator ex_OK = None /\ backupValidator ex_ok = None
      /\ backupValidator ex_padded_quoted_OK = None)
  /\ (backupValidator ex_K = Some (Errorf invalid_response_try_again)
      /\ backupValidator ex_empty = Some (Errorf invalid_response_try_again)
      /\ backupValidator ex_no = Some (Errorf invalid_response_try_again))
  /\ (forall pre l rest,
        Forall (fun x => backupValidator x <> None) pre ->
        backupValidator l = None ->
        promptLoop false backupPrompt backupValidator (pre ++ l :: rest)
        = ((l, None), rest,
           rejections false backupPrompt backupValidator pre
           ++ [Prompted false backupPrompt])
        /\ length (filter (fun e => match e with
                                    | Prompted _ _ => true
                                    | _ => false
                                    end)
                     (rejections false backupPrompt backupValidator pre))
           = length pre).
Proof.
  assert (Hiff : forall s, backupValidator s = None
                           <-> In (Trim (TrimSpace s) [r_quote]) OK_forms).
  { intros s. unfold backupValidator. rewrite <- EqualFold_OK.
    destruct (EqualFold lit_OK (Trim (TrimSpace s) [r_quote])); split;
      congruence. }
  split; [exact Hiff|]. split.
  - intros s Hs. apply Hiff. unfold backup_accepts in Hs.
    apply EqualFold_OK in Hs.
    remember (TrimSpace s) as t eqn:Et. clear Et.
    remember (stripQuotePair t) as x eqn:Ex. symmetry in Ex.
    apply stripQuotePair_inv in Ex. simpl in Hs.
    repeat (destruct Hs as [<- | Hs];
            [destruct Ex as [-> | ->]; vm_compute; tauto|]).
    contradiction.
  - repeat split; try reflexivity.
    + now apply promptLoop_first_accepted.
    + now apply rejections_prompts.
Qed.

(** The amended C4 at a terminal session: two rejected lines, then the
    padded, quoted OK. *)
Lemma backupValidator_accepts_witness :
  backup_accepts ex_padded_quoted_OK = true
  /\ backupValidator ex_padded_quoted_OK = None
  /\ fst (promptLoop false backupPrompt backupValidator
            ([ex_K; ex_no] ++ ex_padded_quoted_OK :: []))
     = ((ex_padded_quoted_OK, None), []).
Proof.
  destruct backupValidator_accepts as (_ & Hsub & _ & _ & Hloop).
  split; [reflexivity|]. split.
  - apply Hsub. reflexivity.
  - destruct (Hloop [ex_K; ex_no] ex_padded_quoted_OK []) as [E _].
    + repeat constructor; discriminate.
    + reflexivity.
    + rewrite E. reflexivity.
Defined.

End ValidatorFacts.

(* ================================================================== *)
(** ** Properties of createWallet, openWallet and syncBlockChain *)
(* ================================================================== *)

Module CliFacts.

Import GoStrings Cli Spec Examples ValidatorFacts.

Ltac unfold_m :=
  unfold bind, call, ret, emit, emits, Println, Fprint_Stderr,
    displayWalletSeed, RequestInput, RequestInputSecure, requestInput.

Lemma calls_app (a b : list Event) : calls (a ++ b) = calls a ++ calls b.
Proof. apply filter_app. Qed.

(** The prompter performs no middleware call. *)
Lemma promptLoop_calls secure p validate lines r rest evs :
  promptLoop secure p validate lines = (r, rest, evs) -> calls evs = [].
Proof.
  revert r rest evs. induction lines as [|l lines IH]; simpl; intros r rest evs H.
  - injection H as <- <- <-. reflexivity.
  - destruct (validate l) as [e|].
    + destruct (promptLoop secure p validate lines) as [[r' rest'] evs'] eqn:E.
      injection H as <- <- <-. simpl. eapply IH. reflexivity.
    + injection H as <- <- <-. reflexivity.
Qed.

(** A line the prompter returns without error was accepted by the
    validator. *)
Lemma promptLoop_accepted secure p validate lines l rest evs :
  promptLoop secure p validate lines = ((l, None), rest, evs) ->
  validate l = None.
Proof.
  revert l rest evs. induction lines as [|x lines IH]; simpl; intros l rest evs H.
  - discriminate.
  - destruct (validate x) as [e|] eqn:Ex.
    + destruct (promptLoop secure p validate lines) as [[r' rest'] evs'] eqn:E.
      injection H as -> <- <-. eapply IH. reflexivity.
    + injection H as <- <- <-. exact Ex.
Qed.

Lemma calls_nil_In (evs : list Event) (e : Event) :
  calls evs = [] -> isCall e = true -> ~ In e evs.
Proof.
  intros Hc He Hin.
  assert (Hf : In e (calls evs)) by (apply filter_In; auto).
  rewrite Hc in Hf. contradiction.
Qed.

(** C1: when the two passphrases entered differ, createWallet returns the
    mismatch error, and the only middleware call it has made is the
    existence check: neither GenerateNewWalletSeed nor CreateWallet is
    called. *)
Theorem createWallet_passphrase_mismatch
    ctx mw w (p1 p2 : gostring) rest1 rest2 evs1 evs2 :
  WalletExists mw = (false, None) ->
  promptLoop true Enter_private_passphrase EmptyValidator (stdin w)
    = ((p1, None), rest1, evs1) ->
  promptLoop true Confirm_passphrase EmptyValidator rest1
    = ((p2, None), rest2, evs2) ->
  p1 <> p2 ->
  exists w' evs,
    createWallet ctx mw w
      = (Returns (Some (Errorf passphrases_do_not_match)), w')
    /\ trace w' = trace w ++ evs
    /\ calls evs = [CallWalletExists]
    /\ ~ In CallGenerateNewWalletSeed evs
    /\ (forall passphrase seed, ~ In (CallCreateWallet passphrase seed) evs).
Proof.
  intros Hex H1 H2 Hne.
  pose proof (promptLoop_calls _ _ _ _ H1) as C1.
  pose proof (promptLoop_calls _ _ _ _ H2) as C2.
  unfold createWallet. unfold_m. rewrite Hex. simpl.
  rewrite H1. simpl. rewrite H2. simpl.
  rewrite (string_eqb_neq Hne). simpl.
  eexists. exists ([CallWalletExists] ++ evs1 ++ evs2
                   ++ [Stderr Passphrases_do_not_match]).
  split; [reflexivity|]. simpl trace. split.
  { rewrite <- !app_assoc. reflexivity. }
  assert (Hc : calls ([CallWalletExists] ++ evs1 ++ evs2
                      ++ [Stderr Passphrases_do_not_match])
               = [CallWalletExists]).
  { rewrite !calls_app, C1, C2. reflexivity. }
  split; [exact Hc|]. split.
  - intros Hin.
    assert (Hf : In CallGenerateNewWalletSeed
                   (calls ([CallWalletExists] ++ evs1 ++ evs2
                           ++ [Stderr Passphrases_do_not_match])))
      by (apply filter_In; auto).
    rewrite Hc in Hf. simpl in Hf. destruct Hf as [Hf|[]]. discriminate.
  - intros passphrase seed Hin.
    assert (Hf : In (CallCreateWallet passphrase seed)
                   (calls ([CallWalletExists] ++ evs1 ++ evs2
                           ++ [Stderr Passphrases_do_not_match])))
      by (apply filter_In; auto).
    rewrite Hc in Hf. simpl in Hf. destruct Hf as [Hf|[]]. discriminate.
Qed.

(** [select] touches the clock and the coins only. *)
Lemma select_frame ctx d w r w' :
  select ctx d w = (r, w') -> trace w' = trace w /\ stdin w' = stdin w.
Proof.
  unfold select. destruct (race ctx d (now w) (coins w)) as [[winner t] cs].
  intros H; injection H as <- <-; auto.
Qed.

Lemma syncDone_sends_events steps : forall pending,
  Forall syncEvent pending ->
  Forall (fun seg => Forall syncEvent (fst seg)) (syncDone_sends pending steps).
Proof.
  assert (Hout : forall l, syncEvent (Stdout l)) by (right; left; eauto).
  assert (Herr : forall l, syncEvent (Stderr l)) by (right; right; eauto).
  assert (Hsnoc : forall pending e, Forall syncEvent pending -> syncEvent e ->
                                    Forall syncEvent (pending ++ [e])).
  { intros pending e Hp He. apply Forall_app. split; [assumption|].
    apply Forall_cons; [assumption|apply Forall_nil]. }
  induction steps as [|st steps IH]; intros pending Hp; simpl; [constructor|].
  destruct st as [[|e| | |]|e]; try (apply IH; assumption).
  - apply IH. apply Hsnoc; auto.
  - destruct (mwErr e); apply Forall_cons; try (apply IH; apply Forall_nil);
      simpl; apply Hsnoc; auto.
  - destruct (mwErr e); [|apply IH; assumption].
    apply Forall_cons; [|apply IH; apply Forall_nil]. simpl. apply Hsnoc; auto.
Qed.

Lemma syncBlockChain_frame ctx mw w out w' :
  syncBlockChain ctx mw w = (out, w') ->
  stdin w' = stdin w
  /\ exists evs, trace w' = trace w ++ evs
                 /\ Forall (fun e => e = Abandoned \/ syncEvent e) evs.
Proof.
  unfold syncBlockChain. unfold_m.
  pose proof (@syncDone_sends_events (syncSteps mw) [CallSyncBlockChain true]) as Hev.
  fold (syncTask mw) in Hev.
  destruct (select ctx _ w) as [winner w1] eqn:Hsel.
  apply select_frame in Hsel as [Ht Hs].
  destruct winner as [[|]|]; [| destruct (syncTask mw) as [|[evs e] rest] | ].
  - intros H; injection H as <- <-. simpl. split; [assumption|].
    exists [Abandoned]. rewrite Ht. split; [reflexivity|].
    apply Forall_cons; [left; reflexivity|apply Forall_nil].
  - intros H; injection H as <- <-. split; [assumption|].
    exists []. rewrite app_nil_r. auto.
  - intros H; injection H as <- <-. simpl. split; [assumption|].
    exists evs. rewrite Ht. split; [reflexivity|].
    assert (He : Forall syncEvent evs).
    { assert (Hp : Forall syncEvent [CallSyncBlockChain true])
        by (apply Forall_cons; [left; reflexivity|apply Forall_nil]).
      specialize (Hev Hp). inversion Hev; assumption. }
    eapply Forall_impl; [|exact He]. auto.
  - intros H. destruct (syncTask mw) as [|[evs e] rest];
      injection H as <- <-; (split; [assumption|]);
      exists []; rewrite app_nil_r; auto.
Qed.

Lemma EmptyValidator_accepts (l : gostring) : EmptyValidator l = None -> l <> [].
Proof. destruct l; simpl; congruence. Qed.

Lemma syncEvent_not_CreateWallet (evs : list Event) passphrase seed :
  Forall (fun e => e = Abandoned \/ syncEvent e) evs ->
  ~ In (CallCreateWallet passphrase seed) evs.
Proof.
  intros Hall Hin. rewrite Forall_forall in Hall. apply Hall in Hin.
  destruct Hin as [H|[H|[[l H]|[l H]]]]; discriminate.
Qed.

(** Case analysis of membership in a concatenation of event lists. *)
Ltac in_split H :=
  repeat (apply in_app_or in H; destruct H as [H|H]);
  simpl in H;
  repeat match type of H with
         | _ \/ _ => destruct H as [H|H]
         | False => contradiction
         end.

Ltac in_done H :=
  first [ discriminate H
        | injection H as <- <-; assumption
        | solve [exfalso; eapply calls_nil_In;
                 [ | | exact H]; [eassumption | reflexivity]]
        | solve [exfalso; eapply syncEvent_not_CreateWallet;
                 [eassumption | exact H]] ].

Ltac leaf :=
  let H := fresh "H" in
  let Hin := fresh "Hin" in
  intros H; injection H as <- <-; simpl; rewrite <- ?app_assoc;
  eexists; split; [reflexivity|]; intros ? ? Hin; in_split Hin; in_done Hin.

(** The passphrase createWallet hands to the middleware is non-empty. *)
Lemma createWallet_passphrase_nonempty ctx mw w out w' :
  createWallet ctx mw w = (out, w') ->
  exists evs, trace w' = trace w ++ evs
    /\ forall passphrase seed,
         In (CallCreateWallet passphrase seed) evs -> passphrase <> [].
Proof.
  unfold createWallet. unfold_m.
  destruct (WalletExists mw) as [walletExists e0]. simpl.
  destruct e0 as [e0|]; simpl; [leaf|].
  destruct walletExists; simpl; [leaf|].
  destruct (promptLoop true Enter_private_passphrase EmptyValidator (stdin w))
    as [[[p1 e1] rest1] evs1] eqn:P1. simpl.
  pose proof (promptLoop_calls _ _ _ _ P1) as C1.
  destruct e1 as [e1|]; simpl; [leaf|].
  apply promptLoop_accepted, EmptyValidator_accepts in P1.
  destruct (promptLoop true Confirm_passphrase EmptyValidator rest1)
    as [[[p2 e2] rest2] evs2] eqn:P2. simpl.
  pose proof (promptLoop_calls _ _ _ _ P2) as C2.
  destruct e2 as [e2|]; simpl; [leaf|].
  destruct (string_eqb p1 p2); simpl; [|leaf].
  destruct (GenerateNewWalletSeed mw) as [seed e3]. simpl.
  destruct e3 as [e3|]; simpl; [leaf|].
  destruct (promptLoop false backupPrompt backupValidator rest2)
    as [[[p3 e4] rest3] evs3] eqn:P3. simpl.
  pose proof (promptLoop_calls _ _ _ _ P3) as C3.
  destruct e4 as [e4|]; simpl; [leaf|].
  destruct (CreateWallet mw p1 seed) as [e5|]; simpl; [leaf|].
  intros H. apply syncBlockChain_frame in H as (_ & evs & Ht & Hall).
  simpl in Ht. rewrite Ht, <- !app_assoc.
  eexists; split; [reflexivity|]. intros ? ? Hin. in_split Hin; in_done Hin.
Qed.

(** C1 at a session in which abc123 and then abc124 are typed. *)
Lemma createWallet_passphrase_mismatch_witness :
  ex_abc123 <> ex_abc124
  /\ exists w' evs,
       createWallet ctx_live mw_no_wallet (terminal [ex_abc123; ex_abc124])
         = (Returns (Some (Errorf passphrases_do_not_match)), w')
       /\ trace w' = trace (terminal [ex_abc123; ex_abc124]) ++ evs
       /\ calls evs = [CallWalletExists]
       /\ ~ In CallGenerateNewWalletSeed evs
       /\ (forall passphrase seed, ~ In (CallCreateWallet passphrase seed) evs).
Proof.
  split; [discriminate|].
  eapply (@createWallet_passphrase_mismatch ctx_live mw_no_wallet
            (terminal [ex_abc123; ex_abc124]) ex_abc123 ex_abc124).
  - reflexivity.
  - reflexivity.
  - reflexivity.
  - discriminate.
Defined.

(** C9: the passphrase validator rejects the empty line, the secure prompt
    then asks again and never returns an empty passphrase, and whatever
    createWallet does, a passphrase it passes to the middleware's
    CreateWallet is non-empty. *)
Theorem createWallet_rejects_empty_passphrase :
  (forall input : gostring, input = [] ->
     EmptyValidator input = Some (Errorf input_required))
  /\ (forall p lines,
        promptLoop true p EmptyValidator ([] :: lines)
        = (let '(r, rest, evs) := promptLoop true p EmptyValidator lines in
           (r, rest, Prompted true p :: Rejected (Errorf input_required) :: evs)))
  /\ (forall p lines l rest evs,
        promptLoop true p EmptyValidator lines = ((l, None), rest, evs) ->
        l <> [])
  /\ (forall ctx mw w out w',
        createWallet ctx mw w = (out, w') ->
        exists evs, trace w' = trace w ++ evs
          /\ forall passphrase seed,
               In (CallCreateWallet passphrase seed) evs -> passphrase <> []).
Proof.
  split; [intros input ->; reflexivity|].
  split; [intros p lines; reflexivity|].
  split.
  - intros p lines l rest evs H.
    apply promptLoop_accepted in H. now apply EmptyValidator_accepts.
  - apply createWallet_passphrase_nonempty.
Qed.

(** C9 at a session in which the first line typed is empty. *)
Lemma createWallet_rejects_empty_passphrase_witness :
  EmptyValidator ex_empty = Some (Errorf input_required)
  /\ fst (fst (promptLoop true Enter_private_passphrase EmptyValidator
                 [ex_empty; ex_abc123])) = (ex_abc123, None)
  /\ exists evs,
       trace (snd (createWallet ctx_live mw_no_wallet
                     (terminal [ex_empty; ex_abc123; ex_abc123; ex_OK])))
       = [] ++ evs
       /\ forall passphrase seed,
            In (CallCreateWallet passphrase seed) evs -> passphrase <> [].
Proof.
  destruct createWallet_rejects_empty_passphrase as (Hrej & _ & _ & Hcreate).
  split; [apply Hrej; reflexivity|]. split; [reflexivity|].
  apply (Hcreate ctx_live mw_no_wallet
           (terminal [ex_empty; ex_abc123; ex_abc123; ex_OK])
           (fst (createWallet ctx_live mw_no_wallet
                   (terminal [ex_empty; ex_abc123; ex_abc123; ex_OK])))).
  apply surjective_pairing.
Defined.

Example createWallet_session :
  createWallet ctx_live mw_no_wallet
    (terminal [ex_empty; ex_abc123; ex_abc123; ex_K; ex_OK])
  = (Returns None,
     {| stdin := []; coins := []; now := 7;
        trace := [CallWalletExists;
                  Prompted true Enter_private_passphrase;
                  Rejected (Errorf input_required);
                  Prompted true Enter_private_passphrase;
                  Prompted true Confirm_passphrase;
                  CallGenerateNewWalletSeed;
                  Stdout (seed_display ex_seed);
                  Prompted false backupPrompt;
                  Rejected (Errorf invalid_response_try_again);
                  Prompted false backupPrompt;
                  CallCreateWallet ex_abc123 ex_seed;
                  Stdout wallet_created_successfully;
                  CallSyncBlockChain true;
                  Stdout Blockchain_sync_started;
                  Stdout Blockchain_synced_successfully] |}).
Proof. reflexivity. Qed.

(** The decline test of attemptToCreateWallet on the raw answer. *)
Lemma decline_test (answer : gostring) :
  string_eqb answer [] || EqualFold lit_N answer = true
  <-> answer = [] \/ answer = [r_N] \/ answer = [r_n].
Proof.
  rewrite orb_true_iff, string_eqb_spec, EqualFold_N. tauto.
Qed.

Lemma attemptToCreateWallet_answer ctx mw w pre answer rest :
  stdin w = pre ++ answer :: rest ->
  Forall (fun x => validateUserResponse x <> None) pre ->
  validateUserResponse answer = None ->
  attemptToCreateWallet ctx mw w
  = let w1 := afterInput rest
                (rejections false createWalletPrompt validateUserResponse pre
                 ++ [Prompted false createWalletPrompt]) w in
    if string_eqb answer [] || EqualFold lit_N answer then
      (Returns (Some (Errorf Wallet_doesnt_exist)),
       afterInput rest [Stdout Maybe_later_Bye] w1)
    else createWallet ctx mw w1.
Proof.
  intros Hin Hpre Hok. unfold attemptToCreateWallet. unfold_m.
  rewrite Hin, (promptLoop_first_accepted false createWalletPrompt _ _ rest Hpre Hok).
  cbv beta iota zeta.
  destruct (string_eqb answer [] || EqualFold lit_N answer); reflexivity.
Qed.

(** C10: for an answer the offer validator accepts, attemptToCreateWallet
    declines exactly when the raw answer is empty or one of N, n, and
    otherwise continues as createWallet; the padded n and the quoted N
    pass validation and lead to createWallet. *)
Theorem attemptToCreateWallet_raw_answer :
  (forall ctx mw w pre answer rest,
     stdin w = pre ++ answer :: rest ->
     Forall (fun x => validateUserResponse x <> None) pre ->
     validateUserResponse answer = None ->
     let w1 := afterInput rest
                 (rejections false createWalletPrompt validateUserResponse pre
                  ++ [Prompted false createWalletPrompt]) w in
     ((answer = [] \/ answer = [r_N] \/ answer = [r_n]) ->
        attemptToCreateWallet ctx mw w
        = (Returns (Some (Errorf Wallet_doesnt_exist)),
           afterInput rest [Stdout Maybe_later_Bye] w1))
     /\ (~ (answer = [] \/ answer = [r_N] \/ answer = [r_n]) ->
        attemptToCreateWallet ctx mw w = createWallet ctx mw w1))
  /\ (validateUserResponse ex_padded_n = None
      /\ validateUserResponse ex_quoted_N = None)
  /\ (forall ctx mw w rest,
        stdin w = ex_padded_n :: rest ->
        attemptToCreateWallet ctx mw w
        = createWallet ctx mw
            (afterInput rest [Prompted false createWalletPrompt] w))
  /\ (forall ctx mw w rest,
        stdin w = ex_quoted_N :: rest ->
        attemptToCreateWallet ctx mw w
        = createWallet ctx mw
            (afterInput rest [Prompted false createWalletPrompt] w)).
Proof.
  split; [|split; [split; reflexivity|split]].
  - intros ctx mw w pre answer rest Hin Hpre Hok w1. subst w1.
    rewrite (@attemptToCreateWallet_answer ctx mw w pre answer rest Hin Hpre Hok).
    cbv zeta.
    split; intros Hd.
    + apply decline_test in Hd. rewrite Hd. reflexivity.
    + destruct (string_eqb answer [] || EqualFold lit_N answer) eqn:E;
        [|reflexivity].
      apply decline_test in E. contradiction.
  - intros ctx mw w rest Hin.
    rewrite (@attemptToCreateWallet_answer ctx mw w [] ex_padded_n rest Hin);
      [reflexivity|constructor|reflexivity].
  - intros ctx mw w rest Hin.
    rewrite (@attemptToCreateWallet_answer ctx mw w [] ex_quoted_N rest Hin);
      [reflexivity|constructor|reflexivity].
Qed.

(** C10 at a session that answers the offer with a quoted N: the wallet
    is created. *)
Lemma attemptToCreateWallet_raw_answer_witness :
  attemptToCreateWallet ctx_live mw_no_wallet
    (terminal [ex_maybe; ex_quoted_N; ex_abc123; ex_abc123; ex_OK])
  = createWallet ctx_live mw_no_wallet
      (afterInput [ex_abc123; ex_abc123; ex_OK]
         (rejections false createWalletPrompt validateUserResponse [ex_maybe]
          ++ [Prompted false createWalletPrompt])
         (terminal [ex_maybe; ex_quoted_N; ex_abc123; ex_abc123; ex_OK]))
  /\ In (CallCreateWallet ex_abc123 ex_seed)
        (trace (snd (attemptToCreateWallet ctx_live mw_no_wallet
                       (terminal [ex_maybe; ex_quoted_N; ex_abc123;
                                  ex_abc123; ex_OK])))).
Proof.
  destruct attemptToCreateWallet_raw_answer as (H & _).
  split.
  - refine (proj2 (H ctx_live mw_no_wallet
                     (terminal [ex_maybe; ex_quoted_N; ex_abc123; ex_abc123; ex_OK])
                     [ex_maybe] ex_quoted_N [ex_abc123; ex_abc123; ex_OK]
                     eq_refl _ eq_refl) _).
    + repeat constructor. discriminate.
    + intros [E|[E|E]]; discriminate E.
  - vm_compute. tauto.
Defined.

Lemma rejections_calls secure p validate pre :
  calls (rejections secure p validate pre) = [].
Proof.
  induction pre as [|x pre IH]; simpl; [reflexivity|].
  destruct (validate x); simpl; exact IH.
Qed.

Lemma validateUserResponse_accepts (a : gostring) :
  validateUserResponse a = None
  <-> In (Trim (TrimSpace a) [r_quote]) offer_answers.
Proof.
  unfold validateUserResponse, offer_answers.
  set (x := Trim (TrimSpace a) [r_quote]).
  destruct (string_eqb x [] || EqualFold lit_y x || EqualFold lit_N x) eqn:E.
  - split; [intros _|reflexivity].
    rewrite !orb_true_iff, string_eqb_spec, EqualFold_y, EqualFold_N in E.
    simpl. intuition auto.
  - split; [discriminate|]. intros H. exfalso.
    assert (E' : string_eqb x [] || EqualFold lit_y x || EqualFold lit_N x = true).
    { rewrite !orb_true_iff, string_eqb_spec, EqualFold_y, EqualFold_N.
      simpl in H. intuition auto. }
    congruence.
Qed.

(** C5, as stated, fails in its last part: the quoted y is none of the
    five listed answers, and the validator accepts it. *)
Lemma validateUserResponse_accepts_unlisted :
  ~ (forall a, ~ In a offer_answers -> validateUserResponse a <> None).
Proof.
  intros H. apply (H ex_quoted_y); [|reflexivity].
  simpl. intros [E|[E|[E|[E|[E|[]]]]]]; discriminate E.
Qed.

(** C5, amended: with no wallet found and the load task's completion
    received, an answer that is empty, N or n makes openWallet return the
    declined error, the existence check being its only middleware call; the
    validator accepts exactly the answers that are empty, y, Y, N or n
    after trimming whitespace and removing leading and trailing double
    quotes, and any other answer is rejected and the prompt shown again. *)
Theorem openWallet_declined :
  (forall ctx mw w pre answer rest,
     WalletExists mw = (false, None) ->
     fst (fst (race ctx (loadLatency mw) (now w) (coins w))) = Some TaskDone ->
     stdin w = pre ++ answer :: rest ->
     Forall (fun x => validateUserResponse x <> None) pre ->
     answer = [] \/ answer = [r_N] \/ answer = [r_n] ->
     exists w' evs,
       openWallet ctx mw w = (Returns (Some (Errorf Wallet_doesnt_exist)), w')
       /\ trace w' = trace w ++ evs
       /\ calls evs = [CallWalletExists])
  /\ (forall a, validateUserResponse a = None
                <-> In (Trim (TrimSpace a) [r_quote]) offer_answers)
  /\ (forall a lines,
        ~ In (Trim (TrimSpace a) [r_quote]) offer_answers ->
        promptLoop false createWalletPrompt validateUserResponse (a :: lines)
        = (let '(r, rest, evs) :=
             promptLoop false createWalletPrompt validateUserResponse lines in
           (r, rest,
            Prompted false createWalletPrompt
            :: Rejected (Errorf invalid_option_try_again) :: evs))).
Proof.
  split; [|split; [exact validateUserResponse_accepts|]].
  - intros ctx mw w pre answer rest Hex Hwin Hin Hpre Hans.
    assert (Hok : validateUserResponse answer = None)
      by (destruct Hans as [-> | [-> | ->]]; reflexivity).
    unfold openWallet, select, loadWalletTask. unfold_m. simpl.
    destruct (race ctx (loadLatency mw) (now w) (coins w)) as [[winner t] cs].
    simpl in Hwin. subst winner. rewrite Hex. simpl.
    match goal with
    | |- context [attemptToCreateWallet ctx mw ?w1] =>
        rewrite (@attemptToCreateWallet_answer ctx mw w1 pre answer rest Hin Hpre Hok)
    end.
    cbv zeta. apply decline_test in Hans. rewrite Hans.
    eexists. eexists. split; [reflexivity|]. unfold afterInput. simpl.
    rewrite <- !app_assoc. split; [reflexivity|].
    rewrite !calls_app, rejections_calls. reflexivity.
  - intros a lines Hno. simpl.
    destruct (validateUserResponse a) as [e|] eqn:E.
    + unfold validateUserResponse in E.
      destruct (string_eqb _ _ || _ || _); [discriminate|].
      injection E as <-. reflexivity.
    + apply validateUserResponse_accepts in E. contradiction.
Qed.

(** The amended C5 at a session that first answers maybe and then n. *)
Lemma openWallet_declined_witness :
  exists w' evs,
    openWallet ctx_live mw_no_wallet (terminal [ex_maybe; ex_n])
      = (Returns (Some (Errorf Wallet_doesnt_exist)), w')
    /\ trace w' = trace (terminal [ex_maybe; ex_n]) ++ evs
    /\ calls evs = [CallWalletExists].
Proof.
  destruct openWallet_declined as (H & _).
  apply (H ctx_live mw_no_wallet (terminal [ex_maybe; ex_n]) [ex_maybe] ex_n []).
  - reflexivity.
  - reflexivity.
  - reflexivity.
  - repeat constructor. discriminate.
  - right. right. reflexivity.
Defined.



(** The first value offered on [syncDone] is the terminal error. *)
Lemma syncDone_first steps : forall pending,
  option_map snd (hd_error (syncDone_sends pending steps)) = terminalError steps.
Proof.
  induction steps as [|st steps IH]; intros pending; simpl; [reflexivity|].
  destruct st as [[|e| | |]|e]; try apply IH.
  - destruct e; reflexivity.
  - destruct e as [code|]; simpl; [reflexivity|apply IH].
Qed.

Lemma syncTask_first mw e :
  terminalError (syncSteps mw) = Some e ->
  exists evs more, syncTask mw = (evs, e) :: more.
Proof.
  unfold syncTask. rewrite <- (syncDone_first (syncSteps mw) [CallSyncBlockChain true]).
  destruct (syncDone_sends _ _) as [|[evs e'] more]; simpl; [discriminate|].
  intros H; injection H as ->. eauto.
Qed.

Lemma syncTask_never mw :
  terminalError (syncSteps mw) = None -> syncTask mw = [].
Proof.
  unfold syncTask. rewrite <- (syncDone_first (syncSteps mw) [CallSyncBlockChain true]).
  destruct (syncDone_sends _ _) as [|[evs e'] more]; simpl; [reflexivity|discriminate].
Qed.



(** The two end-to-end runs of the specification. *)
Example openWallet_creates_wallet :
  fst (openWallet ctx_live mw_no_wallet
         (terminal [ex_y; ex_abc123; ex_abc123; ex_OK]))
  = Returns None
  /\ calls (trace (snd (openWallet ctx_live mw_no_wallet
                          (terminal [ex_y; ex_abc123; ex_abc123; ex_OK]))))
     = [CallWalletExists; CallWalletExists; CallGenerateNewWalletSeed;
        CallCreateWallet ex_abc123 ex_seed; CallSyncBlockChain true].
Proof. split; reflexivity. Qed.

Example openWallet_open_fails :
  openWallet ctx_live mw_failing (terminal [])
  = (Returns (Some (MiddlewareErr 13)),
     {| stdin := []; coins := []; now := 4;
        trace := [Stdout Looking_for_wallets; CallWalletExists; CallOpenWallet;
                  CallNetType; Stderr (errMsg_line false ex_testnet);
                  Stderr (err_line (MiddlewareErr 13))] |}).
Proof. reflexivity. Qed.

(** With both select cases ready at the same tick the coin decides. *)
Example openWallet_tie :
  fst (openWallet (ctx_cancelled_at 4) mw_failing
         {| stdin := []; coins := [true]; now := 0; trace := [] |})
  = Returns (Some (CtxErr Canceled))
  /\ fst (openWallet (ctx_cancelled_at 4) mw_failing
            {| stdin := []; coins := [false]; now := 0; trace := [] |})
     = Returns (Some (MiddlewareErr 13)).
Proof. split; reflexivity. Qed.

End CliFacts.

(* ================================================================== *)
(** ** Properties of the shutdown machinery *)
(* ================================================================== *)

Module MainFacts.

Import Cli Main Examples.

Lemma hooksRun_app (a b : list Output) : hooksRun (a ++ b) = hooksRun a ++ hooksRun b.
Proof.
  induction a as [|o a IH]; simpl; [reflexivity|].
  destruct o; simpl; rewrite IH; reflexivity.
Qed.

Lemma Inv_init m ops : Inv m ops (init m ops).
Proof. repeat split. Qed.

Ltac inv_keep :=
  unfold Inv, hooksLeft in *; simpl;
  rewrite ?hooksRun_app, ?app_nil_r; simpl;
  try match goal with H : exitStatus _ = None |- _ => rewrite ?H end;
  repeat split; try tauto; try lia; try congruence; auto.

Lemma Inv_step m ops a s s' : Inv m ops s -> step a s = Some s' -> Inv m ops s'.
Proof.
  intros (Hm & Hops & Hrun & Hpc). unfold step.
  destruct (exitStatus s) eqn:Hex; [discriminate|].
  destruct a.
  - (* Signal *)
    intros H; injection H as <-.
    destruct (interruptChannel s =? 0); inv_keep.
  - (* ModeReturns *)
    destruct (mainPC s); try discriminate.
    intros H; injection H as <-. unfold afterMode.
    destruct (mode s) eqn:Hmode; simpl.
    + destruct r; simpl; [destruct (negb (ctxDone s))|]; inv_keep.
    + inv_keep.
    + inv_keep.
  - (* MainStep *)
    destruct (mainPC s); try discriminate.
    + destruct (handlerPC s) eqn:Hh; try discriminate.
      intros H; injection H as <-. unfold hooksLeft in Hrun. rewrite Hh in Hrun.
      destruct Hpc as [Hr Hw]. unfold Inv, hooksLeft; simpl.
      repeat split; auto; congruence.
    + destruct (wg s =? 0) eqn:Hw; try discriminate.
      intros H; injection H as <-. apply Nat.eqb_eq in Hw.
      unfold Inv, hooksLeft in *; simpl.
      destruct (handlerPC s); repeat split; try tauto; try lia.
  - (* ListenerStep *)
    destruct (listenerPC s).
    + destruct (interruptChannel s =? 0); try discriminate.
      intros H; injection H as <-. inv_keep.
    + destruct (handlerPC s) eqn:Hh; try discriminate.
      intros H; injection H as <-. unfold hooksLeft in Hrun. rewrite Hh in Hrun.
      destruct Hpc as [Hr Hw]. unfold Inv, hooksLeft; simpl.
      repeat split; auto; congruence.
    + destruct (interruptChannel s =? 0); try discriminate.
      intros H; injection H as <-. inv_keep.
  - (* HandlerStep *)
    unfold hooksLeft in Hrun.
    destruct (handlerPC s) as [| |[|o rest]| |] eqn:Hh; try discriminate.
    + intros H; injection H as <-. unfold Inv, hooksLeft; simpl.
      repeat split; tauto || lia || auto.
    + intros H; injection H as <-. unfold Inv, hooksLeft; simpl.
      destruct Hpc as (Hr & Hw & _). rewrite Hw. repeat split; auto.
    + intros H; injection H as <-. unfold Inv, hooksLeft, runOp.
      destruct Hpc as (Hr & Hw & _).
      destruct (isCancel o); simpl; rewrite hooksRun_app; simpl;
        rewrite <- app_assoc; repeat split; auto.
    + destruct (opError s); intros H; injection H as <-;
        unfold Inv, hooksLeft; simpl; rewrite ?Hh; repeat split; tauto || auto.
Qed.

Lemma Inv_run m ops acts : forall s s',
  Inv m ops s -> run acts s = Some s' -> Inv m ops s'.
Proof.
  induction acts as [|a acts IH]; simpl; intros s s' Hi H.
  - injection H as <-. exact Hi.
  - destruct (step a s) as [s1|] eqn:E; [|discriminate].
    eapply IH; [|exact H]. eapply Inv_step; eauto.
Qed.

Lemma reachable_Inv m ops s : reachable m ops s -> Inv m ops s.
Proof. intros [acts H]. eapply Inv_run; [apply Inv_init|exact H]. Qed.


(** Once in its loop the handler calls every remaining hook, in order. *)
Lemma handler_loop_completes rest : forall s,
  handlerPC s = RunOps rest -> exitStatus s = None ->
  exists s', run (repeat HandlerStep (length rest)) s = Some s'
    /\ output s' = output s ++ map Ran rest
    /\ handlerPC s' = RunOps []
    /\ exitStatus s' = None.
Proof.
  induction rest as [|o rest IH]; intros s Hh Hex; simpl.
  - exists s. rewrite app_nil_r. auto.
  - unfold step. rewrite Hex, Hh.
    destruct (IH (setHandler (RunOps rest) (runOp o s))) as (s' & Hr & Ho & Hh' & He).
    + reflexivity.
    + unfold runOp. destruct (isCancel o); simpl; exact Hex.
    + exists s'. split; [exact Hr|]. split; [|auto].
      rewrite Ho. unfold runOp. destruct (isCancel o); simpl;
        rewrite <- app_assoc; reflexivity.
Qed.


Lemma ex_interrupted_reachable : reachable CliMode ex_ops ex_interrupted_state.
Proof. exists ex_interrupted. vm_compute. reflexivity. Qed.


(** Once beginShutdown has been received, a send on it never completes. *)
Lemma send_after_receive_step m ops a s s' :
  Inv m ops s -> received s = 1 -> mainPC s = MainSends ->
  exitStatus s <> Some 0 ->
  step a s = Some s' ->
  received s' = 1 /\ mainPC s' = MainSends /\ exitStatus s' <> Some 0.
Proof.
  intros (_ & _ & _ & Hpc) Hr Hmain Hne. unfold step.
  destruct (exitStatus s) eqn:Hex; [discriminate|].
  assert (Hnot : handlerPC s <> RecvBeginShutdown).
  { intros E. rewrite E in Hpc. lia. }
  destruct a.
  - intros H; injection H as <-. destruct (interruptChannel s =? 0); simpl;
      rewrite ?Hex; auto.
  - rewrite Hmain. discriminate.
  - rewrite Hmain. destruct (handlerPC s); try discriminate. congruence.
  - destruct (listenerPC s).
    + destruct (interruptChannel s =? 0); try discriminate.
      intros H; injection H as <-. simpl. rewrite Hex. repeat split; auto; try discriminate.
    + destruct (handlerPC s); try discriminate. congruence.
    + destruct (interruptChannel s =? 0); try discriminate.
      intros H; injection H as <-. simpl. rewrite Hex. repeat split; auto; try discriminate.
  - destruct (handlerPC s) as [| |[|o rest]| |]; try discriminate.
    + intros H; injection H as <-. simpl. rewrite Hex. repeat split; auto; try discriminate.
    + intros H; injection H as <-. simpl. rewrite Hex. repeat split; auto; try discriminate.
    + intros H; injection H as <-. unfold runOp.
      destruct (isCancel o); simpl; rewrite Hex; repeat split; auto;
        try discriminate.
    + destruct (opError s); intros H; injection H as <-; simpl;
        rewrite ?Hex; repeat split; auto; try discriminate.
Qed.

Lemma send_after_receive_blocks m ops acts : forall s s',
  Inv m ops s -> received s = 1 -> mainPC s = MainSends ->
  exitStatus s <> Some 0 ->
  run acts s = Some s' ->
  mainPC s' = MainSends /\ exitStatus s' <> Some 0.
Proof.
  induction acts as [|a acts IH]; intros s s' Hi Hr Hm Hne; simpl.
  - intros H; injection H as <-. auto.
  - destruct (step a s) as [s1|] eqn:E; [|discriminate].
    destruct (send_after_receive_step a Hi Hr Hm Hne E) as (Hr1 & Hm1 & Hne1).
    apply IH; auto. eapply Inv_step; eauto.
Qed.

Lemma ex_blocked_reachable : reachable CliMode main_ops ex_blocked_state.
Proof. exists ex_interrupt_then_return. vm_compute. reflexivity. Qed.

Lemma ex_http_error_reachable : reachable HTTPMode main_ops ex_http_error_state.
Proof.
  exists [HandlerStep; ModeReturns (Some (MiddlewareErr 13))].
  vm_compute. reflexivity.
Qed.

Lemma init_reachable m ops : reachable m ops (init m ops).
Proof. exists []. reflexivity. Qed.

(** C3, as stated, fails.  The return of the mode's call does not signal
    shutdown in every mode: not in HTTP mode when it returns no error, and
    not in desktop mode.  And a second signal is not a no-op: in command
    line mode, after an interrupt has been taken, main's send on
    beginShutdown never completes, so main never returns. *)
Lemma mode_return_not_always_signal :
  ~ (forall m ops r s s',
       reachable m ops s -> step (ModeReturns r) s = Some s' ->
       mainPC s' = MainSends)
  /\ ~ (forall m ops s,
         reachable m ops s -> received s = 1 -> mainPC s = MainSends ->
         exitStatus s = None ->
         exists s', step MainStep s = Some s')
  /\ (run ex_interrupt_then_return (init CliMode main_ops) = Some ex_blocked_state
      /\ forall acts s', run acts ex_blocked_state = Some s' ->
                         mainPC s' = MainSends /\ exitStatus s' <> Some 0).
Proof.
  split; [|split].
  - intros H.
    assert (E : step (ModeReturns None) (init HTTPMode main_ops)
                = Some (afterMode None (init HTTPMode main_ops)))
      by reflexivity.
    apply (H HTTPMode main_ops None _ _ (init_reachable _ _)) in E.
    vm_compute in E. discriminate E.
  - intros H.
    destruct (H CliMode main_ops ex_blocked_state ex_blocked_reachable
                eq_refl eq_refl eq_refl) as [s' Hs'].
    vm_compute in Hs'. discriminate Hs'.
  - split; [vm_compute; reflexivity|].
    intros acts s' Hrun.
    eapply send_after_receive_blocks; [| | | |exact Hrun].
    + exact (reachable_Inv ex_blocked_reachable).
    + reflexivity.
    + reflexivity.
    + discriminate.
Qed.

(** C3, amended: in command line mode the return of the mode's call, with
    or without an error, is recorded and makes main signal shutdown; in
    HTTP mode it is recorded and main signals exactly when it is an error
    and the context is not done; desktop mode records nothing and does not
    signal.  A signal main sends while the handler waits is taken, the
    handler then enters its loop over the registered hooks; beginShutdown
    is received at most once in a run, and no hook is called twice. *)
Theorem mode_return_signal m ops s :
  reachable m ops s ->
  (forall r s', step (ModeReturns r) s = Some s' ->
     match m with
     | CliMode => mainPC s' = MainSends /\ opError s' = r
     | HTTPMode =>
         opError s' = r
         /\ (mainPC s' = MainSends <-> r <> None /\ ctxDone s = false)
         /\ (mainPC s' <> MainSends -> mainPC s' = WgWait)
     | DesktopMode => mainPC s' = WgWait /\ opError s' = opError s
     end)
  /\ (mainPC s = MainSends -> handlerPC s = RecvBeginShutdown ->
      exitStatus s = None ->
      exists s', step MainStep s = Some s'
        /\ mainPC s' = WgWait /\ handlerPC s' = RunOps ops
        /\ received s' = 1)
  /\ received s <= 1
  /\ hooksRun (output s) ++ hooksLeft s = ops.
Proof.
  intros Hreach. apply reachable_Inv in Hreach.
  destruct Hreach as (Hm & Hops & Hrun & Hpc).
  split; [|split; [|split]].
  - intros r s'. unfold step.
    destruct (exitStatus s); [discriminate|].
    destruct (mainPC s); try discriminate.
    intros H; injection H as <-. unfold afterMode. rewrite Hm.
    destruct m; simpl.
    + destruct r as [e|]; simpl.
      * destruct (ctxDone s); simpl; split; auto; split;
          try (intros _; reflexivity);
          try (split; [intros _; split; [discriminate|reflexivity]|reflexivity]);
          try (split; [discriminate|intros [_ ?]; discriminate]);
          try (intros E; exfalso; apply E; reflexivity).
      * split; auto. split; [|intros _; reflexivity].
        split; [discriminate|]. intros [E _]. congruence.
    + auto.
    + auto.
  - intros Hmain Hh Hex. unfold step. rewrite Hex, Hmain, Hh.
    eexists. split; [reflexivity|]. simpl. rewrite Hh in Hpc.
    repeat split; try congruence. lia.
  - destruct (handlerPC s); lia.
  - exact Hrun.
Qed.

(** The amended C3 at the return of the command line mode, and at main's
    signal being taken after an HTTP server returned an error. *)
Lemma mode_return_signal_witness :
  (forall r s', step (ModeReturns r) (init CliMode main_ops) = Some s' ->
                mainPC s' = MainSends /\ opError s' = r)
  /\ exists s', step MainStep ex_http_error_state = Some s'
       /\ mainPC s' = WgWait /\ handlerPC s' = RunOps main_ops
       /\ received s' = 1.
Proof.
  split.
  - exact (proj1 (@mode_return_signal CliMode main_ops (init CliMode main_ops)
                    (init_reachable _ _))).
  - destruct (@mode_return_signal HTTPMode main_ops ex_http_error_state
                ex_http_error_reachable) as (_ & Hsend & _).
    exact (Hsend eq_refl eq_refl eq_refl).
Defined.

(** C8 at a run in command line mode whose command returns an error.
    After both hooks have been called and the handler has done
    [wg.Done()], either goroutine can run next: when [main] does, its
    [Wait] returns and the process exits with status 0 although opError is
    set; when the handler does, the process exits with status 1. *)
Theorem exit_status_race :
  (run ex_main_returns_first (init CliMode main_ops) = Some ex_exit0_state
   /\ opError ex_exit0_state = Some (MiddlewareErr 13)
   /\ hooksRun (output ex_exit0_state) = main_ops
   /\ hooksLeft ex_exit0_state = []
   /\ exitStatus ex_exit0_state = Some 0)
  /\ (run ex_handler_checks_first (init CliMode main_ops) = Some ex_exit1_state
      /\ opError ex_exit1_state = Some (MiddlewareErr 13)
      /\ hooksRun (output ex_exit1_state) = main_ops
      /\ hooksLeft ex_exit1_state = []
      /\ exitStatus ex_exit1_state = Some 1).
Proof.
  split; (split; [vm_compute; reflexivity|]); repeat split.
Qed.

(** When the handler reaches its test of opError before [main] returns,
    the exit status is 1 exactly when an error is recorded, and otherwise
    the handler returns and [main], whose [Wait] no longer blocks, exits
    with status 0. *)
Lemma exit_status_when_handler_first m ops s :
  reachable m ops s ->
  handlerPC s = CheckOpError -> exitStatus s = None ->
  match opError s with
  | Some _ => exists s', step HandlerStep s = Some s' /\ exitStatus s' = Some 1
  | None =>
      exists s', step HandlerStep s = Some s'
        /\ exitStatus s' = None /\ handlerPC s' = HandlerReturned
        /\ (mainPC s' = WgWait ->
            exists s'', step MainStep s' = Some s'' /\ exitStatus s'' = Some 0)
  end.
Proof.
  intros Hreach Hh Hex. apply reachable_Inv in Hreach.
  destruct Hreach as (_ & _ & _ & Hpc). rewrite Hh in Hpc.
  destruct Hpc as [_ Hw]. unfold step. rewrite Hex, Hh.
  destruct (opError s) as [e|].
  - eexists. split; reflexivity.
  - eexists. split; [reflexivity|]. simpl. repeat split; auto.
    intros Hmain. rewrite Hex, Hmain, Hw. simpl.
    eexists. split; reflexivity.
Qed.

End MainFacts.

(* ================================================================== *)
(** ** Further properties of createWallet, openWallet and syncBlockChain *)
(* ================================================================== *)

Module CliCoverage.

Import GoStrings Cli Spec Examples ValidatorFacts CliFacts.

(** The lines the prompter leaves are a suffix of the lines it was given. *)
Lemma promptLoop_suffix secure p validate lines r rest evs :
  promptLoop secure p validate lines = (r, rest, evs) ->
  exists pre, lines = pre ++ rest.
Proof.
  revert r rest evs. induction lines as [|l lines IH]; simpl; intros r rest evs H.
  - injection H as <- <- <-. exists []. reflexivity.
  - destruct (validate l) as [e|].
    + destruct (promptLoop secure p validate lines) as [[r' rest'] evs'] eqn:E.
      injection H as <- <- <-. destruct (IH _ _ _ eq_refl) as [pre ->].
      exists (l :: pre). reflexivity.
    + injection H as <- <- <-. exists [l]. reflexivity.
Qed.

(** A line the prompter returns is one of the lines it was given. *)
Lemma promptLoop_accepted_In secure p validate lines l rest evs :
  promptLoop secure p validate lines = ((l, None), rest, evs) -> In l lines.
Proof.
  revert l rest evs. induction lines as [|x lines IH]; simpl; intros l rest evs H.
  - discriminate.
  - destruct (validate x) as [e|].
    + destruct (promptLoop secure p validate lines) as [[r' rest'] evs'] eqn:E.
      injection H as -> <- <-. right. eapply IH. reflexivity.
    + injection H as <- <- <-. left. reflexivity.
Qed.

(** When the prompter fails, every line was read and rejected. *)
Lemma promptLoop_error secure p validate lines l e rest evs :
  promptLoop secure p validate lines = ((l, Some e), rest, evs) ->
  e = InputErr /\ l = [] /\ rest = []
  /\ Forall (fun x => validate x <> None) lines
  /\ evs = rejections secure p validate lines ++ [Prompted secure p].
Proof.
  revert l e rest evs. induction lines as [|x lines IH]; simpl;
    intros l e rest evs H.
  - injection H as <- <- <- <-. repeat split; constructor.
  - destruct (validate x) as [e'|] eqn:Ex.
    + destruct (promptLoop secure p validate lines) as [[r' rest'] evs'] eqn:E.
      injection H as -> <- <-.
      destruct (IH _ _ _ _ eq_refl) as (-> & -> & -> & Hall & ->).
      repeat split; auto. constructor; [congruence|assumption].
    + discriminate.
Qed.

(** The case analysis of createWallet, one goal per return statement. *)
Ltac createWallet_cases w :=
  unfold createWallet; unfold_m;
  destruct (WalletExists _) as [walletExists e0] eqn:HWE; simpl;
  destruct e0 as [e0|]; simpl;
  [ | destruct walletExists; simpl;
  [ | destruct (promptLoop true Enter_private_passphrase EmptyValidator (stdin w))
        as [[[p1 e1] rest1] evs1] eqn:P1; simpl;
      destruct e1 as [e1|]; simpl;
  [ | destruct (promptLoop true Confirm_passphrase EmptyValidator rest1)
        as [[[p2 e2] rest2] evs2] eqn:P2; simpl;
      destruct e2 as [e2|]; simpl;
  [ | destruct (string_eqb p1 p2) eqn:Hsame; simpl;
  [ destruct (GenerateNewWalletSeed _) as [seed e3] eqn:HG; simpl;
    destruct e3 as [e3|]; simpl;
  [ | destruct (promptLoop false backupPrompt backupValidator rest2)
        as [[[p3 e4] rest3] evs3] eqn:P3; simpl;
      destruct e4 as [e4|]; simpl;
  [ | destruct (CreateWallet _ p1 seed) as [e5|] eqn:HC; simpl ] ]
  | ] ] ] ] ].

(** The lines printed before a send hold no middleware call beyond those
    already pending. *)
Lemma syncDone_sends_calls steps : forall pending seg more,
  syncDone_sends pending steps = seg :: more ->
  calls (fst seg) = calls pending.
Proof.
  induction steps as [|st steps IH]; intros pending seg more; simpl;
    [discriminate|].
  destruct st as [[|e| | |]|e]; try (apply IH).
  - intros H. apply IH in H. rewrite H, calls_app, app_nil_r. reflexivity.
  - destruct (mwErr e); intros H; injection H as <- <-; simpl;
      rewrite calls_app, app_nil_r; reflexivity.
  - destruct (mwErr e); [|apply IH].
    intros H; injection H as <- <-; simpl.
    rewrite calls_app, app_nil_r. reflexivity.
Qed.

(** Who wins a race, read off the context and the task. *)
Lemma race_winner ctx d t cs :
  match fst (fst (race ctx d t cs)) with
  | None => cancelAt ctx = None /\ d = None
  | Some CtxDone => exists c, cancelAt ctx = Some c
                              /\ forall n, d = Some n -> Nat.max t c <= t + n
  | Some TaskDone => exists n, d = Some n
                               /\ forall c, cancelAt ctx = Some c ->
                                             t + n <= Nat.max t c
  end.
Proof.
  unfold race. destruct (cancelAt ctx) as [c|], d as [n|]; simpl.
  - destruct (Nat.max t c <? t + n) eqn:E1; simpl.
    { apply Nat.ltb_lt in E1. exists c. split; [reflexivity|].
      intros n' H; injection H as <-. lia. }
    destruct (t + n <? Nat.max t c) eqn:E2; simpl.
    { apply Nat.ltb_lt in E2. exists n. split; [reflexivity|].
      intros c' H; injection H as <-. lia. }
    apply Nat.ltb_ge in E1, E2.
    destruct cs as [|[|] cs]; simpl.
    + exists n. split; [reflexivity|]. intros c' H; injection H as <-. lia.
    + exists c. split; [reflexivity|]. intros n' H; injection H as <-. lia.
    + exists n. split; [reflexivity|]. intros c' H; injection H as <-. lia.
  - exists c. split; [reflexivity|]. discriminate.
  - exists n. split; [reflexivity|]. discriminate.
  - auto.
Qed.

(** What syncBlockChain does, by the winner of its select. *)
Lemma syncBlockChain_cases ctx mw w :
  let d := match terminalError (syncSteps mw) with
           | Some _ => Some (syncLatency mw)
           | None => None
           end in
  let '(winner, t, cs) := race ctx d (now w) (coins w) in
  match winner with
  | None =>
      syncBlockChain ctx mw w
      = (Blocks, {| stdin := stdin w; coins := cs; now := t; trace := trace w |})
  | Some CtxDone =>
      syncBlockChain ctx mw w
      = (Returns (Some (CtxErr (ctxErr ctx))),
         {| stdin := stdin w; coins := cs; now := t;
            trace := trace w ++ [Abandoned] |})
  | Some TaskDone =>
      exists evs e,
        terminalError (syncSteps mw) = Some e
        /\ calls evs = [CallSyncBlockChain true]
        /\ syncBlockChain ctx mw w
           = (Returns e, {| stdin := stdin w; coins := cs; now := t;
                            trace := trace w ++ evs |})
  end.
Proof.
  cbv zeta. unfold syncBlockChain, select. unfold_m.
  destruct (terminalError (syncSteps mw)) as [e|] eqn:Et.
  - destruct (syncTask_first mw Et) as (evs & more & Es).
    rewrite Es.
    destruct (race ctx (Some (syncLatency mw)) (now w) (coins w))
      as [[winner t] cs] eqn:Er.
    destruct winner as [[|]|]; simpl; try reflexivity.
    exists evs, e. split; [reflexivity|]. split; [|reflexivity].
    unfold syncTask in Es. apply syncDone_sends_calls in Es. exact Es.
  - rewrite (syncTask_never mw Et).
    destruct (race ctx None (now w) (coins w)) as [[winner t] cs] eqn:Er.
    destruct winner as [[|]|]; simpl; try reflexivity.
    pose proof (race_winner ctx None (now w) (coins w)) as Hw.
    rewrite Er in Hw. simpl in Hw. destruct Hw as (n & Hn & _). discriminate Hn.
Qed.

(** X4: syncBlockChain waits forever exactly when the context is never done
    and the sync attempt never produces a terminal error: no sync-ended
    event and no failure to start. *)
Theorem syncBlockChain_blocks_iff ctx mw w :
  fst (syncBlockChain ctx mw w) = Blocks
  <-> cancelAt ctx = None /\ terminalError (syncSteps mw) = None.
Proof.
  pose proof (syncBlockChain_cases ctx mw w) as Hc. cbv zeta in Hc.
  pose proof (race_winner ctx
                (match terminalError (syncSteps mw) with
                 | Some _ => Some (syncLatency mw)
                 | None => None
                 end) (now w) (coins w)) as Hw.
  destruct (race ctx _ (now w) (coins w)) as [[winner t] cs].
  simpl in Hw. destruct winner as [[|]|].
  - rewrite Hc. simpl. destruct Hw as (c & Hc' & _).
    split; [discriminate|]. intros [E _]. congruence.
  - destruct Hc as (evs & e & Et & _ & ->). simpl.
    split; [discriminate|]. intros [_ E]. congruence.
  - rewrite Hc. simpl. destruct Hw as [Hn Hd].
    split; [intros _|reflexivity]. split; [exact Hn|].
    destruct (terminalError (syncSteps mw)); [discriminate|reflexivity].
Qed.

(** In the last case of createWallet, what syncBlockChain does. *)
Ltac sync_leaf :=
  match goal with
  | |- syncBlockChain ?c ?m ?w0 = _ -> _ =>
      let Hs := fresh "Hs" in
      let H := fresh "H" in
      pose proof (syncBlockChain_cases c m w0) as Hs; cbv zeta in Hs;
      destruct (race c _ (now w0) (coins w0)) as [[winner t] cs] eqn:Hrace;
      destruct winner as [[|]|];
      [ rewrite Hs | destruct Hs as (evsS & eS & HtS & HcS & ->) | rewrite Hs ];
      intros H; injection H as <- <-; simpl
  end.

Ltac other_leaf :=
  let H := fresh "H" in
  intros H; injection H as <- <-; simpl.

Ltac prompt_calls :=
  repeat match goal with
         | H : promptLoop _ _ _ _ = _ |- _ => apply promptLoop_calls in H
         end.

Ltac rewrite_calls :=
  rewrite ?calls_app;
  repeat match goal with
         | H : calls _ = _ |- _ => rewrite H
         end;
  simpl.

(** When the context case wins, the context is done by the tick at which
    the select returns. *)
Lemma race_ctx_time ctx d t cs t' cs' :
  race ctx d t cs = (Some CtxDone, t', cs') ->
  exists c, cancelAt ctx = Some c /\ c <= t'.
Proof.
  unfold race. destruct (cancelAt ctx) as [c|], d as [n|]; simpl.
  - destruct (Nat.max t c <? t + n).
    { intros H; injection H as <- <-. exists c. split; [reflexivity|lia]. }
    destruct (t + n <? Nat.max t c); [discriminate|].
    destruct cs as [|[|] cs]; try discriminate.
    intros H; injection H as <- <-. exists c. split; [reflexivity|lia].
  - intros H; injection H as <- <-. exists c. split; [reflexivity|lia].
  - discriminate.
  - discriminate.
Qed.

(** A terminal error comes from the middleware. *)
Lemma terminalError_middleware steps e :
  terminalError steps = Some (Some e) -> exists code, e = MiddlewareErr code.
Proof.
  induction steps as [|st steps IH]; simpl; [discriminate|].
  destruct st as [[|err| | |]|[code|]]; auto.
  - destruct err as [code|]; simpl; intros H; [|discriminate].
    injection H as <-. eauto.
  - intros H; injection H as <-. eauto.
Qed.

Ltac createWallet_leaves w :=
  createWallet_cases w; [other_leaf | other_leaf | other_leaf | other_leaf
                         | other_leaf | other_leaf | other_leaf
                         | sync_leaf | other_leaf].

(** What every run of createWallet satisfies: the shape of its middleware
    calls, what a nil result means, and what a context error means. *)
Lemma createWallet_summary ctx mw w :
  exists evs,
    trace (snd (createWallet ctx mw w)) = trace w ++ evs
    /\ (calls evs = [CallWalletExists; CallNetType]
        \/ WalletExists mw = (false, None)
           /\ exists passphrase k,
                1 <= k
                /\ calls evs
                   = firstn k [CallWalletExists; CallGenerateNewWalletSeed;
                               CallCreateWallet passphrase
                                 (fst (GenerateNewWalletSeed mw));
                               CallSyncBlockChain true]
                /\ (fst (createWallet ctx mw w) = Returns None ->
                    k = 4
                    /\ CreateWallet mw passphrase
                         (fst (GenerateNewWalletSeed mw)) = None
                    /\ terminalError (syncSteps mw) = Some None))
    /\ (fst (createWallet ctx mw w) = Returns None ->
        calls evs <> [CallWalletExists; CallNetType])
    /\ (forall e, fst (createWallet ctx mw w) = Returns (Some (CtxErr e)) ->
                  e = ctxErr ctx
                  /\ exists c, cancelAt ctx = Some c
                               /\ c <= now (snd (createWallet ctx mw w))).
Proof.
  destruct (createWallet ctx mw w) as [out w'] eqn:E. revert E.
  createWallet_leaves w;
    try (pose proof (promptLoop_calls _ _ _ _ P1) as C1);
    try (pose proof (promptLoop_calls _ _ _ _ P2) as C2);
    try (pose proof (promptLoop_calls _ _ _ _ P3) as C3);
    try (apply promptLoop_error in P1; destruct P1 as (-> & _));
    try (apply promptLoop_error in P2; destruct P2 as (-> & _));
    try (apply promptLoop_error in P3; destruct P3 as (-> & _));
    rewrite <- ?app_assoc;
    (eexists; split; [reflexivity|]); rewrite_calls;
    (split; [|split; [try discriminate|]]).
  all: try (intros e He;
            first [ discriminate He
                  | injection He as <-; split; [reflexivity|];
                    eapply race_ctx_time; eassumption
                  | injection He as ->;
                    apply terminalError_middleware in HtS;
                    destruct HtS as [code Hcode]; discriminate Hcode ]).
  all: try (intros _; discriminate).
  all: first [ left; reflexivity
             | right; split; [reflexivity|]; exists p1, 4;
               split; [lia|]; split; [reflexivity|];
               intros He; injection He as ->; repeat split; assumption
             | right; split; [reflexivity|]; exists p1, 3;
               split; [lia|]; split; [reflexivity|]; discriminate
             | right; split; [reflexivity|]; exists [], 2;
               split; [lia|]; split; [reflexivity|]; discriminate
             | right; split; [reflexivity|]; exists [], 1;
               split; [lia|]; split; [reflexivity|]; discriminate ].
Qed.

(** X1: whatever happens, the middleware calls createWallet makes are, in this
    order and each at most once: the existence check, then either the net
    type (for an error message) or the seed generation, the creation with
    the generated seed, and the sync. *)
Theorem createWallet_call_order ctx mw w :
  exists evs,
    trace (snd (createWallet ctx mw w)) = trace w ++ evs
    /\ (calls evs = [CallWalletExists; CallNetType]
        \/ exists passphrase k,
             1 <= k
             /\ calls evs
                = firstn k [CallWalletExists; CallGenerateNewWalletSeed;
                            CallCreateWallet passphrase
                              (fst (GenerateNewWalletSeed mw));
                            CallSyncBlockChain true]).
Proof.
  destruct (createWallet_summary ctx mw w) as (evs & Ht & Hs & _).
  exists evs. split; [exact Ht|].
  destruct Hs as [Hs|(_ & p & k & Hk & Hc & _)]; [left; exact Hs|].
  right. exists p, k. auto.
Qed.

(** X3: createWallet returns nil only when the middleware created the wallet
    with the generated seed and the sync that followed ended without
    error, after the full sequence of calls. *)
Theorem createWallet_nil_means_created ctx mw w :
  fst (createWallet ctx mw w) = Returns None ->
  WalletExists mw = (false, None)
  /\ terminalError (syncSteps mw) = Some None
  /\ exists passphrase evs,
       trace (snd (createWallet ctx mw w)) = trace w ++ evs
       /\ calls evs = [CallWalletExists; CallGenerateNewWalletSeed;
                       CallCreateWallet passphrase
                         (fst (GenerateNewWalletSeed mw));
                       CallSyncBlockChain true]
       /\ CreateWallet mw passphrase (fst (GenerateNewWalletSeed mw)) = None.
Proof.
  intros Hnil.
  destruct (createWallet_summary ctx mw w) as (evs & Ht & Hs & Hn & _).
  destruct Hs as [Hs|(Hwe & p & k & Hk & Hc & Hok)].
  - exfalso. exact (Hn Hnil Hs).
  - destruct (Hok Hnil) as (-> & Hcw & Hte).
    split; [exact Hwe|]. split; [exact Hte|].
    exists p, evs. auto.
Qed.

(** An accepted line splits the lines read into those rejected before it
    and those left. *)
Lemma promptLoop_accepted_split secure p validate lines l rest evs :
  promptLoop secure p validate lines = ((l, None), rest, evs) ->
  exists pre, lines = pre ++ l :: rest.
Proof.
  revert l rest evs. induction lines as [|x lines IH]; simpl; intros l rest evs H.
  - discriminate.
  - destruct (validate x) as [e|].
    + destruct (promptLoop secure p validate lines) as [[r' rest'] evs'] eqn:E.
      injection H as -> <- <-. destruct (IH _ _ _ eq_refl) as [pre ->].
      exists (x :: pre). reflexivity.
    + injection H as <- <- <-. exists []. reflexivity.
Qed.

(** The prompter shows its prompt at least once. *)
Lemma promptLoop_prompted secure p validate lines r rest evs :
  promptLoop secure p validate lines = (r, rest, evs) ->
  In (Prompted secure p) evs.
Proof.
  destruct lines as [|l lines]; simpl.
  - intros H; injection H as <- <- <-. left. reflexivity.
  - destruct (validate l).
    + destruct (promptLoop secure p validate lines) as [[r' rest'] evs'].
      intros H; injection H as <- <- <-. left. reflexivity.
    + intros H; injection H as <- <- <-. left. reflexivity.
Qed.

(** Membership of a CreateWallet call in a leaf's trace, when the leaf
    makes no such call. *)
Ltac no_create H Hnot :=
  rewrite <- ?app_assoc in H; in_split H;
  first [ contradiction
        | discriminate H
        | solve [exfalso; eapply calls_nil_In; [ | | exact H];
                 [eapply promptLoop_calls; eassumption | reflexivity]]
        | solve [exfalso; apply Hnot; assumption] ].

(** X2: createWallet hands a passphrase and a seed to the middleware's
    CreateWallet only when the seed is the one the middleware generated
    without error, it has been displayed and the backup prompt shown before
    the call, some line of the terminal was accepted as the backup
    acknowledgment, and the passphrase was typed twice. *)
Theorem createWallet_creates_only_acknowledged ctx mw w (pass sd : gostring) :
  In (CallCreateWallet pass sd) (trace (snd (createWallet ctx mw w))) ->
  ~ In (CallCreateWallet pass sd) (trace w) ->
  GenerateNewWalletSeed mw = (sd, None)
  /\ (exists pre1 pre2 rest,
        stdin w = pre1 ++ pass :: pre2 ++ pass :: rest)
  /\ (exists l, In l (stdin w) /\ backupValidator l = None)
  /\ (exists before after,
        trace (snd (createWallet ctx mw w))
        = trace w ++ before ++ CallCreateWallet pass sd :: after
        /\ In (Stdout (seed_display sd)) before
        /\ In (Prompted false backupPrompt) before).
Proof.
  destruct (createWallet ctx mw w) as [out w'] eqn:E. revert E.
  createWallet_cases w; [other_leaf | other_leaf | other_leaf | other_leaf
                         | other_leaf | other_leaf | other_leaf
                         | sync_leaf | other_leaf];
    intros Hin Hnot;
    try solve [exfalso; no_create Hin Hnot].
  all: assert (Hps : pass = p1 /\ sd = seed).
  all: try (rewrite <- ?app_assoc in Hin; in_split Hin;
            first [ injection Hin as <- <-; split; reflexivity
                  | exfalso; first
                      [ contradiction
                      | discriminate Hin
                      | solve [eapply calls_nil_In; [ | | exact Hin];
                               [eapply promptLoop_calls; eassumption
                               | reflexivity]]
                      | solve [apply Hnot; assumption]
                      | solve [assert (Hc : In (CallCreateWallet pass sd)
                                              (calls evsS))
                                 by (apply filter_In; split;
                                     [assumption|reflexivity]);
                               rewrite HcS in Hc; simpl in Hc;
                               destruct Hc as [Hc|[]]; discriminate Hc] ] ]).
  all: destruct Hps as [-> ->].
  all: apply string_eqb_spec in Hsame; subst p2.
  all: destruct (promptLoop_accepted_split _ _ _ _ P1) as [pre1 E1].
  all: destruct (promptLoop_accepted_split _ _ _ _ P2) as [pre2 E2].
  all: destruct (promptLoop_accepted_split _ _ _ _ P3) as [pre3 E3].
  all: pose proof (promptLoop_accepted _ _ _ _ P3) as A3.
  all: pose proof (promptLoop_prompted _ _ _ _ P3) as Q3.
  all: split; [reflexivity|].
  all: split; [exists pre1, pre2, rest2; rewrite E1, E2; reflexivity|].
  all: split;
    [exists p3; split; [|exact A3];
     rewrite E1, E2, E3;
     repeat (first [rewrite in_app_iff | progress simpl]); tauto|].
  all: exists ([CallWalletExists] ++ evs1 ++ evs2
               ++ [CallGenerateNewWalletSeed; Stdout (seed_display seed)]
               ++ evs3).
  all: eexists; split;
    [rewrite <- ?app_assoc; simpl; rewrite <- ?app_assoc; reflexivity|].
  all: repeat (first [rewrite in_app_iff | progress simpl]); tauto.
Qed.

Lemma In_calls (e : Event) (evs : list Event) :
  In e evs -> isCall e = true -> In e (calls evs).
Proof. intros Hin He. apply filter_In. auto. Qed.

(** attemptToCreateWallet either returns the input error or the declined
    error without any middleware call, or continues as createWallet. *)
Lemma attemptToCreateWallet_summary ctx mw w :
  (exists e evs,
     fst (attemptToCreateWallet ctx mw w) = Returns (Some e)
     /\ (e = InputErr \/ e = Errorf Wallet_doesnt_exist)
     /\ trace (snd (attemptToCreateWallet ctx mw w)) = trace w ++ evs
     /\ calls evs = [])
  \/ (exists w1 evs0,
        attemptToCreateWallet ctx mw w = createWallet ctx mw w1
        /\ trace w1 = trace w ++ evs0
        /\ calls evs0 = []).
Proof.
  unfold attemptToCreateWallet. unfold_m.
  destruct (promptLoop false createWalletPrompt validateUserResponse (stdin w))
    as [[[answer e] rest] evs] eqn:P.
  pose proof (promptLoop_calls _ _ _ _ P) as C.
  destruct e as [e|]; cbv beta iota zeta.
  - apply promptLoop_error in P. destruct P as (-> & _).
    left. exists InputErr. eexists. split; [reflexivity|].
    split; [left; reflexivity|]. simpl. rewrite <- app_assoc.
    split; [reflexivity|]. rewrite calls_app, C. reflexivity.
  - destruct (string_eqb answer [] || EqualFold lit_N answer).
    + left. exists (Errorf Wallet_doesnt_exist). eexists.
      split; [reflexivity|]. split; [right; reflexivity|]. simpl.
      rewrite <- app_assoc. split; [reflexivity|].
      rewrite calls_app, C. reflexivity.
    + right. eexists. exists evs. split; [reflexivity|].
      split; [reflexivity|exact C].
Qed.

(** What every run of openWallet satisfies. *)
Lemma openWallet_summary ctx mw w :
  exists evs,
    trace (snd (openWallet ctx mw w)) = trace w ++ evs
    /\ (calls evs = []
        \/ calls evs = [CallWalletExists; CallNetType]
        \/ (WalletExists mw = (true, None)
            /\ fst (openWallet ctx mw w) = Returns (mwErr (OpenWallet mw))
            /\ (calls evs = [CallWalletExists; CallOpenWallet]
                \/ calls evs = [CallWalletExists; CallOpenWallet; CallNetType]))
        \/ (WalletExists mw = (false, None)
            /\ exists cs, calls evs = CallWalletExists :: cs
                 /\ (cs = []
                     \/ cs = [CallWalletExists; CallNetType]
                     \/ exists passphrase k,
                          1 <= k
                          /\ cs = firstn k
                                    [CallWalletExists; CallGenerateNewWalletSeed;
                                     CallCreateWallet passphrase
                                       (fst (GenerateNewWalletSeed mw));
                                     CallSyncBlockChain true]
                          /\ (fst (openWallet ctx mw w) = Returns None ->
                              k = 4
                              /\ CreateWallet mw passphrase
                                   (fst (GenerateNewWalletSeed mw)) = None
                              /\ terminalError (syncSteps mw) = Some None))))
    /\ (fst (openWallet ctx mw w) = Returns None ->
        (WalletExists mw = (true, None) /\ OpenWallet mw = None
         /\ calls evs = [CallWalletExists; CallOpenWallet])
        \/ (WalletExists mw = (false, None)
            /\ terminalError (syncSteps mw) = Some None
            /\ exists passphrase,
                 CreateWallet mw passphrase (fst (GenerateNewWalletSeed mw))
                 = None
                 /\ calls evs
                    = [CallWalletExists; CallWalletExists;
                       CallGenerateNewWalletSeed;
                       CallCreateWallet passphrase
                         (fst (GenerateNewWalletSeed mw));
                       CallSyncBlockChain true]))
    /\ (forall e, fst (openWallet ctx mw w) = Returns (Some (CtxErr e)) ->
                  e = ctxErr ctx
                  /\ exists c, cancelAt ctx = Some c
                               /\ c <= now (snd (openWallet ctx mw w))).
Proof.
  unfold openWallet, select, loadWalletTask. unfold_m. simpl.
  destruct (race ctx (loadLatency mw) (now w) (coins w)) as [[winner t] cs] eqn:Hrace.
  destruct winner as [[|]|]; simpl.
  - (* the context case *)
    eexists. split; [rewrite <- app_assoc; reflexivity|]. simpl.
    split; [left; reflexivity|]. split; [discriminate|].
    intros e He. injection He as <-. split; [reflexivity|].
    eapply race_ctx_time; eassumption.
  - (* the task's completion *)
    destruct (WalletExists mw) as [walletExists e0] eqn:HWE. simpl.
    destruct e0 as [e0|]; simpl.
    { eexists. split; [rewrite <- !app_assoc; reflexivity|]. simpl.
      split; [right; left; reflexivity|]. split; discriminate. }
    destruct walletExists; simpl.
    + destruct (OpenWallet mw) as [e1|] eqn:HO; simpl.
      * eexists. split; [rewrite <- !app_assoc; reflexivity|]. simpl.
        split; [right; right; left; auto|]. split; discriminate.
      * eexists. split; [rewrite <- !app_assoc; reflexivity|]. simpl.
        split; [right; right; left; auto|]. split; [auto|discriminate].
    + match goal with
      | |- context [attemptToCreateWallet ctx mw ?w1] =>
          destruct (attemptToCreateWallet_summary ctx mw w1)
            as [(e & evs & Hf & He & Ht & Hc)|(w2 & evs0 & Ha & Ht & Hc)];
          [ destruct (attemptToCreateWallet ctx mw w1) as [out w'] eqn:Ea
          | rewrite Ha;
            destruct (createWallet_summary ctx mw w2)
              as (evs1 & Ht1 & Hs1 & Hn1 & He1);
            destruct (createWallet ctx mw w2) as [out w'] eqn:Ec ];
          simpl in *
      end.
      * subst out. exists ([Stdout Looking_for_wallets; CallWalletExists] ++ evs).
        split; [rewrite Ht, <- !app_assoc; reflexivity|].
        rewrite calls_app, Hc. simpl.
        split; [right; right; right; split; [reflexivity|];
                exists []; auto|].
        split; [discriminate|].
        intros e' He'. destruct He as [-> | ->]; discriminate He'.
      * exists ([Stdout Looking_for_wallets; CallWalletExists] ++ evs0 ++ evs1).
        split; [rewrite Ht1, Ht, <- !app_assoc; reflexivity|].
        rewrite !calls_app, Hc. simpl.
        split; [|split; [|exact He1]].
        -- right; right; right. split; [reflexivity|].
           exists (calls evs1). split; [reflexivity|].
           destruct Hs1 as [Hs1|(_ & p & k & Hk & Hcs & Hok)];
             [right; left; exact Hs1|].
           right; right. exists p, k. auto.
        -- intros Hnil. right. split; [reflexivity|].
           destruct Hs1 as [Hs1|(_ & p & k & Hk & Hcs & Hok)].
           ++ exfalso. exact (Hn1 Hnil Hs1).
           ++ destruct (Hok Hnil) as (-> & Hcw & Hte). rewrite Hcs.
              split; [exact Hte|]. exists p. split; [exact Hcw|reflexivity].
  - (* nothing ever ready *)
    eexists. split; [reflexivity|]. simpl.
    split; [left; reflexivity|]. split; discriminate.
Qed.

Ltac decide_In H :=
  simpl in H;
  repeat match type of H with
         | _ \/ _ => destruct H as [H|H]
         | False => contradiction
         | _ = _ => discriminate H
         end.

(** X5: in one run openWallet either opens or creates, never both: it calls
    the middleware's OpenWallet only when the existence check answered
    that a wallet exists, and generates a seed, creates a wallet or starts
    a sync only when it answered that none exists. *)
Theorem openWallet_opens_or_creates ctx mw w :
  exists evs,
    trace (snd (openWallet ctx mw w)) = trace w ++ evs
    /\ (In CallOpenWallet evs -> WalletExists mw = (true, None))
    /\ (forall e, In e evs ->
          e = CallGenerateNewWalletSeed
          \/ (exists passphrase seed, e = CallCreateWallet passphrase seed)
          \/ (exists rescan, e = CallSyncBlockChain rescan) ->
          WalletExists mw = (false, None)).
Proof.
  destruct (openWallet_summary ctx mw w) as (evs & Ht & Hs & _).
  exists evs. split; [exact Ht|].
  assert (Hshape :
            calls evs = []
            \/ calls evs = [CallWalletExists; CallNetType]
            \/ (WalletExists mw = (true, None)
                /\ (calls evs = [CallWalletExists; CallOpenWallet]
                    \/ calls evs = [CallWalletExists; CallOpenWallet; CallNetType]))
            \/ (WalletExists mw = (false, None)
                /\ exists cs, calls evs = CallWalletExists :: cs
                     /\ ~ In CallOpenWallet cs)).
  { destruct Hs as [Hs|[Hs|[(Hwe & _ & Hs)|(Hwe & cs & Hc & Hs)]]]; auto.
    right; right; right. split; [exact Hwe|]. exists cs. split; [exact Hc|].
    destruct Hs as [-> |[-> |(p & k & _ & -> & _)]]; intros Hin;
      [decide_In Hin|decide_In Hin|].
    destruct k as [|[|[|[|[|k]]]]]; decide_In Hin. }
  split.
  - intros Hin. apply In_calls in Hin; [|reflexivity].
    destruct Hshape as [Hc|[Hc|[(Hwe & _)|(Hwe & cs & Hc & Hno)]]].
    + rewrite Hc in Hin. decide_In Hin.
    + rewrite Hc in Hin. decide_In Hin.
    + exact Hwe.
    + rewrite Hc in Hin. destruct Hin as [Hin|Hin]; [discriminate Hin|].
      contradiction.
  - intros e Hin He.
    assert (Hcall : isCall e = true).
    { destruct He as [-> |[(p & sd & ->)|(r & ->)]]; reflexivity. }
    apply In_calls in Hin; [|exact Hcall].
    destruct Hshape as [Hc|[Hc|[(Hwe & [Hc|Hc])|(Hwe & _)]]]; auto;
      rewrite Hc in Hin; simpl in Hin;
      destruct He as [-> |[(p & sd & ->)|(r & ->)]]; decide_In Hin.
Qed.

(** X6: openWallet returns nil only when a wallet is loaded: either the
    existing wallet was opened without error, or none existed and one was
    created with the generated seed and its first sync ended without
    error. *)
Theorem openWallet_nil_means_loaded ctx mw w :
  fst (openWallet ctx mw w) = Returns None ->
  (WalletExists mw = (true, None) /\ OpenWallet mw = None)
  \/ (WalletExists mw = (false, None)
      /\ terminalError (syncSteps mw) = Some None
      /\ exists passphrase,
           CreateWallet mw passphrase (fst (GenerateNewWalletSeed mw)) = None
           /\ In (CallCreateWallet passphrase (fst (GenerateNewWalletSeed mw)))
                (trace (snd (openWallet ctx mw w)))).
Proof.
  intros Hnil.
  destruct (openWallet_summary ctx mw w) as (evs & Ht & _ & Hn & _).
  destruct (Hn Hnil) as [(Hwe & Ho & _)|(Hwe & Hte & p & Hcw & Hc)].
  - left. auto.
  - right. split; [exact Hwe|]. split; [exact Hte|]. exists p.
    split; [exact Hcw|]. rewrite Ht. apply in_or_app. right.
    assert (Hin : In (CallCreateWallet p (fst (GenerateNewWalletSeed mw)))
                    (calls evs)) by (rewrite Hc; simpl; tauto).
    apply filter_In in Hin. tauto.
Qed.


Lemma openWallet_nil_means_loaded_witness :
  (WalletExists mw_no_wallet = (true, None) /\ OpenWallet mw_no_wallet = None)
  \/ (WalletExists mw_no_wallet = (false, None)
      /\ terminalError (syncSteps mw_no_wallet) = Some None
      /\ exists passphrase,
           CreateWallet mw_no_wallet passphrase
             (fst (GenerateNewWalletSeed mw_no_wallet)) = None
           /\ In (CallCreateWallet passphrase
                    (fst (GenerateNewWalletSeed mw_no_wallet)))
                (trace (snd (openWallet ctx_live mw_no_wallet
                               (terminal [ex_y; ex_abc123; ex_abc123; ex_OK]))))).
Proof.
  apply (@openWallet_nil_means_loaded ctx_live mw_no_wallet
           (terminal [ex_y; ex_abc123; ex_abc123; ex_OK])).
  reflexivity.
Defined.


Lemma createWallet_nil_means_created_witness :
  WalletExists mw_no_wallet = (false, None)
  /\ terminalError (syncSteps mw_no_wallet) = Some None
  /\ exists passphrase evs,
       trace (snd (createWallet ctx_live mw_no_wallet
                     (terminal [ex_abc123; ex_abc123; ex_OK])))
       = trace (terminal [ex_abc123; ex_abc123; ex_OK]) ++ evs
       /\ calls evs = [CallWalletExists; CallGenerateNewWalletSeed;
                       CallCreateWallet passphrase
                         (fst (GenerateNewWalletSeed mw_no_wallet));
                       CallSyncBlockChain true]
       /\ CreateWallet mw_no_wallet passphrase
            (fst (GenerateNewWalletSeed mw_no_wallet)) = None.
Proof.
  apply (@createWallet_nil_means_created ctx_live mw_no_wallet
           (terminal [ex_abc123; ex_abc123; ex_OK])).
  reflexivity.
Defined.

Lemma createWallet_creates_only_acknowledged_witness :
  GenerateNewWalletSeed mw_no_wallet = (ex_seed, None)
  /\ (exists pre1 pre2 rest,
        stdin (terminal [ex_empty; ex_abc123; ex_abc123; ex_K; ex_OK])
        = pre1 ++ ex_abc123 :: pre2 ++ ex_abc123 :: rest)
  /\ (exists l, In l (stdin (terminal [ex_empty; ex_abc123; ex_abc123;
                                       ex_K; ex_OK]))
               /\ backupValidator l = None)
  /\ (exists before after,
        trace (snd (createWallet ctx_live mw_no_wallet
                      (terminal [ex_empty; ex_abc123; ex_abc123; ex_K; ex_OK])))
        = trace (terminal [ex_empty; ex_abc123; ex_abc123; ex_K; ex_OK])
          ++ before ++ CallCreateWallet ex_abc123 ex_seed :: after
        /\ In (Stdout (seed_display ex_seed)) before
        /\ In (Prompted false backupPrompt) before).
Proof.
  apply (@createWallet_creates_only_acknowledged ctx_live mw_no_wallet
           (terminal [ex_empty; ex_abc123; ex_abc123; ex_K; ex_OK])
           ex_abc123 ex_seed).
  - vm_compute. tauto.
  - simpl. tauto.
Defined.

(** Trimming ignores padding made of runes of the trimmed class. *)
Lemma TrimLeftFunc_pad f pad s :
  Forall (fun r => f r = true) pad ->
  TrimLeftFunc f (pad ++ s) = TrimLeftFunc f s.
Proof.
  induction 1 as [|r pad Hr Hpad IH]; simpl; [reflexivity|].
  rewrite Hr. exact IH.
Qed.

Lemma TrimLeftFunc_all f pad :
  Forall (fun r => f r = true) pad -> TrimLeftFunc f pad = [].
Proof.
  intros H. rewrite <- (app_nil_r pad), TrimLeftFunc_pad; auto.
Qed.

Lemma TrimRightFunc_pad f s pad :
  Forall (fun r => f r = true) pad ->
  TrimRightFunc f (s ++ pad) = TrimRightFunc f s.
Proof.
  intros H. unfold TrimRightFunc. rewrite rev_app_distr, TrimLeftFunc_pad; auto.
  apply Forall_rev. exact H.
Qed.

Lemma TrimFunc_pad f pad1 s pad2 :
  Forall (fun r => f r = true) pad1 ->
  Forall (fun r => f r = true) pad2 ->
  TrimFunc f (pad1 ++ s ++ pad2) = TrimFunc f s.
Proof.
  intros H1 H2. unfold TrimFunc. rewrite TrimLeftFunc_pad by exact H1.
  induction s as [|r s IH]; simpl.
  - rewrite TrimLeftFunc_all by exact H2. reflexivity.
  - destruct (f r); [exact IH|].
    change (r :: s ++ pad2) with ((r :: s) ++ pad2).
    apply TrimRightFunc_pad. exact H2.
Qed.

(** X8: whitespace typed before or after an answer never changes the verdict
    of either validator. *)
Theorem validators_ignore_padding (pad1 s pad2 : gostring) :
  Forall (fun r => isSpace r = true) pad1 ->
  Forall (fun r => isSpace r = true) pad2 ->
  backupValidator (pad1 ++ s ++ pad2) = backupValidator s
  /\ validateUserResponse (pad1 ++ s ++ pad2) = validateUserResponse s.
Proof.
  intros H1 H2. unfold backupValidator, validateUserResponse, TrimSpace.
  rewrite (@TrimFunc_pad isSpace pad1 s pad2 H1 H2). split; reflexivity.
Qed.

Lemma validators_ignore_padding_witness :
  backupValidator ([9; 32] ++ ex_ok ++ [32; 10; 12288])%N = backupValidator ex_ok
  /\ validateUserResponse ([9; 32] ++ ex_ok ++ [32; 10; 12288])%N
     = validateUserResponse ex_ok.
Proof.
  apply validators_ignore_padding; repeat constructor.
Defined.

(** When every line is rejected the prompter shows the prompt once per
    line and once more, and fails. *)
Lemma promptLoop_all_rejected secure p validate lines :
  Forall (fun x => validate x <> None) lines ->
  promptLoop secure p validate lines
  = (([], Some InputErr), [],
     rejections secure p validate lines ++ [Prompted secure p]).
Proof.
  induction 1 as [|x lines Hx Hall IH]; simpl; [reflexivity|].
  destruct (validate x) as [e|]; [|congruence]. rewrite IH. reflexivity.
Qed.

(** X9: when the terminal offers no acceptable answer to the create-wallet
    offer (in particular when it is at its end), attemptToCreateWallet
    reads all of it, returns the input error and calls the middleware not
    at all. *)
Theorem attemptToCreateWallet_no_answer ctx mw w :
  Forall (fun x => validateUserResponse x <> None) (stdin w) ->
  attemptToCreateWallet ctx mw w
  = (Returns (Some InputErr),
     {| stdin := []; coins := coins w; now := now w;
        trace := trace w
                 ++ rejections false createWalletPrompt validateUserResponse
                      (stdin w)
                 ++ [Prompted false createWalletPrompt;
                     Stderr (Error_reading_your_response InputErr)] |})
  /\ calls (rejections false createWalletPrompt validateUserResponse (stdin w)
            ++ [Prompted false createWalletPrompt;
                Stderr (Error_reading_your_response InputErr)]) = [].
Proof.
  intros Hall. split.
  - unfold attemptToCreateWallet. unfold_m.
    rewrite (@promptLoop_all_rejected false createWalletPrompt _ _ Hall).
    simpl. rewrite <- !app_assoc. reflexivity.
  - rewrite calls_app, rejections_calls. reflexivity.
Qed.

Lemma attemptToCreateWallet_no_answer_witness :
  fst (attemptToCreateWallet ctx_live mw_no_wallet (terminal [ex_maybe; ex_no]))
  = Returns (Some InputErr)
  /\ stdin (snd (attemptToCreateWallet ctx_live mw_no_wallet
                   (terminal [ex_maybe; ex_no]))) = [].
Proof.
  destruct (@attemptToCreateWallet_no_answer ctx_live mw_no_wallet
              (terminal [ex_maybe; ex_no])) as [E _].
  - repeat constructor; discriminate.
  - rewrite E. split; reflexivity.
Defined.

End CliCoverage.

(* ================================================================== *)
(** ** Further properties of the shutdown machinery *)
(* ================================================================== *)

Module MainCoverage.

Import Cli Main MainInvariants Examples CoverageExamples MainFacts.

Lemma receivedLines_app a b :
  receivedLines (a ++ b) = receivedLines a + receivedLines b.
Proof.
  induction a as [|o a IH]; simpl; [reflexivity|].
  destruct o; simpl; rewrite IH; reflexivity.
Qed.

Lemma alreadyLines_app a b :
  alreadyLines (a ++ b) = alreadyLines a + alreadyLines b.
Proof.
  induction a as [|o a IH]; simpl; [reflexivity|].
  destruct o; simpl; rewrite IH; reflexivity.
Qed.

Lemma Inv2_init m ops : Inv2 m ops (init m ops).
Proof.
  split; [apply Inv_init|]. unfold ExitInv, CtxInv, ListenerInv, DesktopInv.
  simpl. repeat split; auto; try discriminate; try contradiction.
Qed.

Ltac rewrite_pcs :=
  repeat match goal with
         | H : listenerPC _ = _ |- _ => progress (rewrite H in * )
         | H : handlerPC _ = _ |- _ => progress (rewrite H in * )
         | H : mainPC _ = _ |- _ => progress (rewrite H in * )
         | H : mode _ = _ |- _ => progress (rewrite H in * )
         | H : opError _ = _ |- _ => progress (rewrite H in * )
         | H : exitStatus _ = None |- _ => progress (rewrite H in * )
         end.

Ltac inv2_finish :=
  unfold ExitInv, CtxInv, ListenerInv, DesktopInv, runOp in *;
  rewrite_pcs; simpl in *; rewrite_pcs;
  rewrite ?hooksRun_app, ?receivedLines_app, ?alreadyLines_app in *;
  simpl in *; rewrite ?app_nil_r, ?Nat.add_0_r in *;
  repeat split; intros; try discriminate; try congruence; try lia;
  try tauto;
  rewrite ?in_app_iff in *; simpl in *;
  try solve [intuition (try discriminate; try congruence; try lia)];
  try solve [match goal with
             | |- context [match listenerPC ?s with _ => _ end] =>
                 destruct (listenerPC s);
                 intuition (try discriminate; try congruence; try lia)
             end].

Lemma Inv2_step m ops a s s' : Inv2 m ops s -> step a s = Some s' -> Inv2 m ops s'.
Proof.
  intros (Hi & Hex & Hctx & Hl & Hd) Hstep.
  split; [eapply Inv_step; eauto|].
  destruct Hi as (_ & _ & _ & Hpc).
  revert Hstep. unfold step.
  destruct (exitStatus s) eqn:Hnone; [discriminate|].
  destruct a.
  - intros H; injection H as <-.
    destruct (interruptChannel s =? 0); inv2_finish.
  - destruct (mainPC s) eqn:Hmain; try discriminate.
    intros H; injection H as <-. unfold afterMode.
    destruct (mode s) eqn:Hmode; simpl;
      [destruct r; simpl; [destruct (negb (ctxDone s))|]| |]; inv2_finish.
  - destruct (mainPC s) eqn:Hmain; try discriminate.
    + destruct (handlerPC s) eqn:Hh; try discriminate.
      intros H; injection H as <-. inv2_finish.
    + destruct (wg s =? 0) eqn:Hw; try discriminate.
      apply Nat.eqb_eq in Hw.
      intros H; injection H as <-. inv2_finish.
  - destruct (listenerPC s) eqn:Hlp.
    + destruct (interruptChannel s =? 0); try discriminate.
      intros H; injection H as <-. inv2_finish.
    + destruct (handlerPC s) eqn:Hh; try discriminate.
      intros H; injection H as <-. inv2_finish.
    + destruct (interruptChannel s =? 0); try discriminate.
      intros H; injection H as <-. inv2_finish.
  - destruct (handlerPC s) as [| |[|o rest]| |] eqn:Hh; try discriminate.
    + intros H; injection H as <-. inv2_finish.
    + intros H; injection H as <-. inv2_finish.
    + intros H; injection H as <-.
      destruct o; inv2_finish.
    + destruct (opError s) eqn:Hop; intros H; injection H as <-; inv2_finish.
Qed.

Lemma Inv2_run m ops acts : forall s s',
  Inv2 m ops s -> run acts s = Some s' -> Inv2 m ops s'.
Proof.
  induction acts as [|a acts IH]; simpl; intros s s' Hi H.
  - injection H as <-. exact Hi.
  - destruct (step a s) as [s1|] eqn:E; [|discriminate].
    eapply IH; [|exact H]. eapply Inv2_step; eauto.
Qed.

Lemma reachable_Inv2 m ops s : reachable m ops s -> Inv2 m ops s.
Proof. intros [acts H]. eapply Inv2_run; [apply Inv2_init|exact H]. Qed.

Lemma ex_exit0_reachable : reachable CliMode main_ops ex_exit0_state.
Proof. exists ex_main_returns_first. vm_compute. reflexivity. Qed.




(** X11: the context is cancelled by the cancel hook and by nothing else; and
    when cancel is the first hook registered, as in [main], the context is
    done as soon as any hook has run, so that every later hook, the
    wallet's close among them, runs with the context already cancelled. *)
Theorem ctx_cancelled_by_hook_only m ops s :
  reachable m ops s ->
  (ctxDone s = true <-> In cancel (hooksRun (output s)))
  /\ (forall rest, ops = cancel :: rest ->
                   hooksRun (output s) <> [] -> ctxDone s = true).
Proof.
  intros Hreach. apply reachable_Inv2 in Hreach.
  destruct Hreach as ((_ & _ & Hrun & _) & _ & Hctx & _).
  split; [exact Hctx|]. intros rest -> Hne. apply Hctx.
  destruct (hooksRun (output s)) as [|o l]; [contradiction|].
  simpl in Hrun. injection Hrun as -> _. left. reflexivity.
Qed.

Lemma ctx_cancelled_by_hook_only_witness :
  (ctxDone ex_interrupted_state = true
   <-> In cancel (hooksRun (output ex_interrupted_state)))
  /\ (forall rest, ex_ops = cancel :: rest ->
                   hooksRun (output ex_interrupted_state) <> [] ->
                   ctxDone ex_interrupted_state = true).
Proof.
  exact (@ctx_cancelled_by_hook_only CliMode ex_ops ex_interrupted_state
           ex_interrupted_reachable).
Defined.

(** X12: the listener announces the shutdown at most once, exactly when it has
    taken its first interrupt, and prints that shutdown is already under
    way only after its own signal on beginShutdown was taken. *)
Theorem listener_lines m ops s :
  reachable m ops s ->
  receivedLines (output s) <= 1
  /\ (receivedLines (output s) = 0 <-> listenerPC s = AwaitSignal)
  /\ (0 < alreadyLines (output s) ->
      listenerPC s = AwaitMoreSignals /\ received s = 1).
Proof.
  intros Hreach. apply reachable_Inv2 in Hreach.
  destruct Hreach as (_ & _ & _ & Hl & _).
  unfold ListenerInv in Hl.
  destruct (listenerPC s) eqn:Hlp.
  - destruct Hl as [Hr Ha]. rewrite Hr, Ha. repeat split; auto; lia.
  - destruct Hl as [Hr Ha]. rewrite Hr, Ha.
    repeat split; auto; try lia; try discriminate.
  - destruct Hl as [Hr Hrecv]. rewrite Hr.
    repeat split; auto; try lia; try discriminate.
Qed.

Lemma listener_lines_witness :
  receivedLines (output ex_interrupted_state) <= 1
  /\ (receivedLines (output ex_interrupted_state) = 0
      <-> listenerPC ex_interrupted_state = AwaitSignal)
  /\ (0 < alreadyLines (output ex_interrupted_state) ->
      listenerPC ex_interrupted_state = AwaitMoreSignals
      /\ received ex_interrupted_state = 1).
Proof.
  exact (@listener_lines CliMode ex_ops ex_interrupted_state
           ex_interrupted_reachable).
Defined.

Lemma run_app acts1 acts2 : forall s,
  run (acts1 ++ acts2) s
  = match run acts1 s with
    | Some s1 => run acts2 s1
    | None => None
    end.
Proof.
  induction acts1 as [|a acts1 IH]; intros s; simpl; [reflexivity|].
  destruct (step a s); [apply IH|reflexivity].
Qed.

Lemma reachable_run m ops acts s s' :
  reachable m ops s -> run acts s = Some s' -> reachable m ops s'.
Proof.
  intros [acts0 H0] H. exists (acts0 ++ acts). rewrite run_app, H0. exact H.
Qed.

Lemma listener_blocked_step m ops a s s' :
  Inv m ops s -> received s = 1 -> listenerPC s = ListenerSends ->
  step a s = Some s' ->
  received s' = 1 /\ listenerPC s' = ListenerSends.
Proof.
  intros (_ & _ & _ & Hpc) Hr Hl. unfold step.
  destruct (exitStatus s); [discriminate|].
  assert (Hnot : handlerPC s <> RecvBeginShutdown).
  { intros E. rewrite E in Hpc. lia. }
  destruct a.
  - intros H; injection H as <-. destruct (interruptChannel s =? 0); auto.
  - destruct (mainPC s); try discriminate.
    intros H; injection H as <-. unfold afterMode.
    destruct (mode s); simpl;
      [destruct r; simpl; [destruct (negb (ctxDone s))|]| |]; auto.
  - destruct (mainPC s); try discriminate.
    + destruct (handlerPC s); try discriminate. congruence.
    + destruct (wg s =? 0); try discriminate.
      intros H; injection H as <-. auto.
  - rewrite Hl. destruct (handlerPC s); try discriminate. congruence.
  - destruct (handlerPC s) as [| |[|o rest]| |]; try discriminate.
    + intros H; injection H as <-. auto.
    + intros H; injection H as <-. auto.
    + intros H; injection H as <-. unfold runOp.
      destruct (isCancel o); auto.
    + destruct (opError s); intros H; injection H as <-; auto.
Qed.

Lemma ex_listener_blocked_reachable :
  reachable CliMode main_ops ex_listener_blocked_state.
Proof. exists ex_return_then_interrupt. vm_compute. reflexivity. Qed.

Lemma ex_desktop_reachable : reachable DesktopMode main_ops ex_desktop_state.
Proof. exists ex_desktop_interrupted. vm_compute. reflexivity. Qed.

Lemma ex_waiting_reachable : reachable HTTPMode ex_ops ex_waiting_state.
Proof. exists [HandlerStep]. vm_compute. reflexivity. Qed.

(** X13: when the shutdown was begun by the mode's completion, an interrupt is
    announced by the listener, whose send on beginShutdown then never
    completes: it stays at that send for the rest of the run, and no later
    interrupt is ever acknowledged. *)
Theorem listener_send_blocks_forever m ops s :
  reachable m ops s ->
  received s = 1 -> listenerPC s = ListenerSends ->
  forall acts s', run acts s = Some s' ->
    listenerPC s' = ListenerSends
    /\ receivedLines (output s') = 1
    /\ alreadyLines (output s') = 0.
Proof.
  intros Hreach Hr Hl acts s' Hrun.
  assert (Hs' : received s' = 1 /\ listenerPC s' = ListenerSends).
  { pose proof (reachable_Inv Hreach) as Hi. clear Hreach.
    revert s Hi Hr Hl Hrun.
    induction acts as [|a acts IH]; simpl; intros s Hi Hr Hl Hrun.
    - injection Hrun as <-. auto.
    - destruct (step a s) as [s1|] eqn:E; [|discriminate].
      destruct (listener_blocked_step a Hi Hr Hl E) as [Hr1 Hl1].
      apply (IH s1); auto. eapply Inv_step; eauto. }
  destruct Hs' as [_ Hl'].
  pose proof (reachable_Inv2 (reachable_run acts Hreach Hrun))
    as (_ & _ & _ & Hli & _).
  unfold ListenerInv in Hli. rewrite Hl' in Hli. tauto.
Qed.

Lemma listener_send_blocks_forever_witness :
  match run [Signal; HandlerStep; Signal; HandlerStep]
          ex_listener_blocked_state with
  | Some s' =>
      listenerPC s' = ListenerSends
      /\ receivedLines (output s') = 1
      /\ alreadyLines (output s') = 0
  | None => False
  end.
Proof.
  destruct (run [Signal; HandlerStep; Signal; HandlerStep]
              ex_listener_blocked_state) as [s'|] eqn:E.
  - exact (@listener_send_blocks_forever CliMode main_ops
             ex_listener_blocked_state ex_listener_blocked_reachable
             eq_refl eq_refl _ s' E).
  - vm_compute in E. discriminate E.
Defined.

(** X14: in desktop mode nothing is ever recorded in opError and [main] never
    signals shutdown, so the process never exits with status 1 whatever
    the desktop application returned, and hooks run only after the
    listener has announced an interrupt. *)
Theorem desktop_mode_records_no_error ops s :
  reachable DesktopMode ops s ->
  opError s = None
  /\ mainPC s <> MainSends
  /\ exitStatus s <> Some 1
  /\ (hooksRun (output s) <> [] -> receivedLines (output s) = 1).
Proof.
  intros Hreach. apply reachable_Inv2 in Hreach.
  destruct Hreach as ((Hm & Hops & Hrun & Hpc) & Hex & _ & Hl & Hd).
  destruct (Hd Hm) as (Hop & Hmain & Hrecv).
  split; [exact Hop|]. split; [exact Hmain|]. split.
  - intros E. unfold ExitInv in Hex. rewrite E in Hex. tauto.
  - intros Hne.
    assert (Hr : received s = 1).
    { unfold hooksLeft in Hrun.
      destruct (handlerPC s); try tauto;
        rewrite Hops in Hrun;
        apply (f_equal (@length shutdownOp)) in Hrun;
        rewrite length_app in Hrun;
        destruct (hooksRun (output s)); try contradiction;
        simpl in Hrun; lia. }
    apply Hrecv in Hr. unfold ListenerInv in Hl. rewrite Hr in Hl. tauto.
Qed.

Lemma desktop_mode_records_no_error_witness :
  opError ex_desktop_state = None
  /\ mainPC ex_desktop_state <> MainSends
  /\ exitStatus ex_desktop_state <> Some 1
  /\ (hooksRun (output ex_desktop_state) <> [] ->
      receivedLines (output ex_desktop_state) = 1).
Proof.
  exact (@desktop_mode_records_no_error main_ops ex_desktop_state
           ex_desktop_reachable).
Defined.

(** X15: an interrupt that arrives while the handler waits on beginShutdown
    and the listener waits for its first signal is announced, taken by the
    handler, and followed by a call of every registered hook in order,
    the process not having exited meanwhile. *)
Theorem interrupt_runs_all_hooks m ops s :
  reachable m ops s ->
  handlerPC s = RecvBeginShutdown ->
  listenerPC s = AwaitSignal ->
  exitStatus s = None ->
  exists s',
    run ([Signal; ListenerStep; ListenerStep]
         ++ repeat HandlerStep (length ops)) s = Some s'
    /\ output s' = output s ++ Received_signal_Shutting_down :: map Ran ops
    /\ hooksLeft s' = []
    /\ listenerPC s' = AwaitMoreSignals
    /\ exitStatus s' = None.
Proof.
  intros Hreach Hh Hl Hex.
  pose proof (reachable_Inv Hreach) as (_ & Hops & _ & _).
  rewrite run_app.
  assert (E3 : exists s3,
             run [Signal; ListenerStep; ListenerStep] s = Some s3
             /\ output s3 = output s ++ [Received_signal_Shutting_down]
             /\ handlerPC s3 = RunOps ops
             /\ listenerPC s3 = AwaitMoreSignals
             /\ exitStatus s3 = None).
  { cbn [run]. unfold step at 1. rewrite Hex.
    destruct (interruptChannel s =? 0) eqn:Hic.
    - unfold step at 1. cbn [exitStatus setInterruptChannel listenerPC
                               interruptChannel]. rewrite Hex, Hl.
      cbn [Nat.eqb]. unfold step.
      cbn [exitStatus setListener print setInterruptChannel listenerPC
             handlerPC]. rewrite Hex, Hh.
      eexists. split; [reflexivity|]. cbn. rewrite Hops. auto.
    - unfold step at 1. rewrite Hex, Hl, Hic. unfold step.
      cbn [exitStatus setListener print setInterruptChannel listenerPC
             handlerPC]. rewrite Hex, Hh.
      eexists. split; [reflexivity|]. cbn. rewrite Hops. auto. }
  destruct E3 as (s3 & -> & Ho3 & Hh3 & Hl3 & Hex3).
  destruct (@handler_loop_completes ops s3 Hh3 Hex3) as (s' & Hr & Ho & Hh' & He).
  exists s'. split; [exact Hr|]. split.
  { rewrite Ho, Ho3, <- app_assoc. reflexivity. }
  split; [unfold hooksLeft; rewrite Hh'; reflexivity|].
  split; [|exact He].
  (* the handler's steps leave the listener where it is *)
  clear - Hr Hl3. revert s3 Hr Hl3.
  induction (length ops) as [|n IH]; simpl; intros s3 Hr Hl3.
  - injection Hr as <-. exact Hl3.
  - destruct (step HandlerStep s3) as [s4|] eqn:E; [|discriminate].
    apply (IH s4); [exact Hr|].
    revert E. unfold step. destruct (exitStatus s3); [discriminate|].
    destruct (handlerPC s3) as [| |[|o rest]| |]; try discriminate;
      try (intros H; injection H as <-; exact Hl3).
    + intros H; injection H as <-. unfold runOp.
      destruct (isCancel o); exact Hl3.
    + destruct (opError s3); intros H; injection H as <-; exact Hl3.
Qed.

Lemma interrupt_runs_all_hooks_witness :
  exists s',
    run ([Signal; ListenerStep; ListenerStep]
         ++ repeat HandlerStep (length ex_ops)) ex_waiting_state = Some s'
    /\ output s'
       = output ex_waiting_state
         ++ Received_signal_Shutting_down :: map Ran ex_ops
    /\ hooksLeft s' = []
    /\ listenerPC s' = AwaitMoreSignals
    /\ exitStatus s' = None.
Proof.
  exact (@interrupt_runs_all_hooks HTTPMode ex_ops ex_waiting_state
           ex_waiting_reachable eq_refl eq_refl eq_refl).
Defined.

End MainCoverage.

(* ================================================================== *)
(** ** Properties of the commands and of the command line entry *)
(* ================================================================== *)

Module CommandFacts.

Import GoStrings Commands MainFunctions CoverageExamples.

(** *** supportedCommands *)

Lemma string_leb_total (s t : gostring) :
  string_leb s t = false -> string_leb t s = true.
Proof.
  revert t. induction s as [|a s IH]; intros [|b t]; simpl; try discriminate;
    try reflexivity.
  destruct (a <? b)%N eqn:Hab; [discriminate|].
  destruct (b <? a)%N eqn:Hba; [reflexivity|].
  apply IH.
Qed.

Lemma insertString_perm x l : Permutation (x :: l) (insertString x l).
Proof.
  induction l as [|y r IH]; simpl; [apply Permutation_refl|].
  destruct (string_leb x y); [apply Permutation_refl|].
  eapply Permutation_trans; [apply perm_swap|].
  apply perm_skip. exact IH.
Qed.

Lemma insertString_HdRel x y l :
  string_leb y x = true ->
  HdRel (fun a b => string_leb a b = true) y l ->
  HdRel (fun a b => string_leb a b = true) y (insertString x l).
Proof.
  intros Hyx Hl. destruct l as [|z r]; simpl.
  - constructor. exact Hyx.
  - destruct (string_leb x z); constructor; [exact Hyx|].
    inversion Hl; assumption.
Qed.

Lemma insertString_sorted x l :
  Sorted (fun a b => string_leb a b = true) l ->
  Sorted (fun a b => string_leb a b = true) (insertString x l).
Proof.
  induction 1 as [|y r Hr IH Hhd]; simpl.
  - repeat constructor.
  - destruct (string_leb x y) eqn:Hxy.
    + constructor; [constructor; assumption|]. constructor. exact Hxy.
    + constructor; [exact IH|].
      apply insertString_HdRel; [|exact Hhd].
      apply string_leb_total. exact Hxy.
Qed.

Lemma sort_Strings_sorted l :
  Sorted (fun a b => string_leb a b = true) (sort_Strings l).
Proof.
  induction l as [|x l IH]; simpl; [constructor|].
  apply insertString_sorted. exact IH.
Qed.

Lemma sort_Strings_perm l : Permutation l (sort_Strings l).
Proof.
  induction l as [|x l IH]; simpl; [constructor|].
  eapply Permutation_trans; [apply perm_skip; exact IH|].
  apply insertString_perm.
Qed.

Lemma collect_names (cs : list Command) : forall names,
  fold_left (fun names command => names ++ [Name command]) cs names
  = names ++ map Name cs.
Proof.
  induction cs as [|c cs IH]; intros names; simpl.
  - rewrite app_nil_r. reflexivity.
  - rewrite IH, <- app_assoc. reflexivity.
Qed.

Lemma string_leb_trans (s t u : gostring) :
  string_leb s t = true -> string_leb t u = true -> string_leb s u = true.
Proof.
  revert t u. induction s as [|a s IH]; intros [|b t] [|c u]; simpl;
    try discriminate; try reflexivity.
  destruct (a <? b)%N eqn:Hab, (b <? a)%N eqn:Hba,
           (b <? c)%N eqn:Hbc, (c <? b)%N eqn:Hcb,
           (a <? c)%N eqn:Hac, (c <? a)%N eqn:Hca;
    try discriminate; try reflexivity;
    rewrite ?N.ltb_lt, ?N.ltb_ge in *; try lia.
  apply IH.
Qed.

(** X16: supportedCommands returns the names of the registered sub-commands,
    each as often as it was registered, in increasing order. *)
Theorem supportedCommands_sorted_names (parser : Command) :
  StronglySorted (fun a b => string_leb a b = true) (supportedCommands parser)
  /\ Permutation (map Name (Commands parser)) (supportedCommands parser)
  /\ List.length (supportedCommands parser) = List.length (Commands parser).
Proof.
  unfold supportedCommands. rewrite collect_names. simpl.
  split.
  { apply Sorted_StronglySorted; [|apply sort_Strings_sorted].
    intros a b c. apply string_leb_trans. }
  split; [apply sort_Strings_perm|].
  rewrite <- (Permutation_length (sort_Strings_perm _)). apply length_map.
Qed.

(** *** handleParseError and enterCliMode *)

Section FlagFacts.

Variables flags_None HelpFlag PassDoubleDash PrintErrors : N.
Variable IsFlagErrorType : parseError -> ErrorType -> bool.

(** What is known of the option bits: [flags.None] is zero and the
    error-printing bit is none of the two bits the program sets. *)
Hypothesis None_zero : flags_None = 0%N.
Hypothesis Help_not_PrintErrors : N.land HelpFlag PrintErrors = 0%N.
Hypothesis DoubleDash_not_PrintErrors : N.land PassDoubleDash PrintErrors = 0%N.

Lemma program_options_leave_printing (options : N) :
  options = HelpFlag \/ options = N.lor HelpFlag PassDoubleDash ->
  (N.land options PrintErrors =? flags_None)%N = true.
Proof.
  intros [-> | ->]; apply N.eqb_eq; rewrite None_zero.
  - exact Help_not_PrintErrors.
  - rewrite N.land_lor_distr_l, Help_not_PrintErrors,
      DoubleDash_not_PrintErrors. reflexivity.
Qed.

(** X17: with the options the program gives its parsers, printing is not left
    to go-flags: handleParseError prints nothing exactly when there is no
    error; it prints the error exactly when the error is not a help
    request, and help, and no error, when it is. *)
Theorem handleParseError_never_silent (err : option parseError) (parser : Parser) :
  Options parser = HelpFlag
  \/ Options parser = N.lor HelpFlag PassDoubleDash ->
  (handleParseError flags_None HelpFlag PrintErrors IsFlagErrorType err parser
   = [] <-> err = None)
  /\ (forall e, err = Some e ->
        (IsFlagErrorType e ErrHelp = false ->
         handleParseError flags_None HelpFlag PrintErrors IsFlagErrorType
           err parser = [Println_error e])
        /\ (IsFlagErrorType e ErrHelp = true ->
            ~ In (Println_error e)
                (handleParseError flags_None HelpFlag PrintErrors
                   IsFlagErrorType err parser)
            /\ exists p, In (WriteHelp p)
                           (handleParseError flags_None HelpFlag PrintErrors
                              IsFlagErrorType err parser))).
Proof.
  intros Hopt. apply program_options_leave_printing in Hopt.
  unfold handleParseError. destruct err as [e|].
  - rewrite Hopt. simpl. split.
    + split; [|discriminate].
      destruct (IsFlagErrorType e ErrHelp); simpl; [|discriminate].
      destruct (Active (Command_ parser)); discriminate.
    + intros e' He'. injection He' as <-. split.
      * intros ->. reflexivity.
      * intros ->. simpl.
        destruct (Active (Command_ parser)) as [active|]; simpl.
        -- split; [intros [H|[H|[]]]; discriminate H|].
           eexists. left. reflexivity.
        -- split; [intros [H|[]]; discriminate H|].
           eexists. left. reflexivity.
  - split; [tauto|]. discriminate.
Qed.

Lemma handleParseError_some_nonempty (e : parseError) (parser : Parser) :
  Options parser = HelpFlag
  \/ Options parser = N.lor HelpFlag PassDoubleDash ->
  handleParseError flags_None HelpFlag PrintErrors IsFlagErrorType
    (Some e) parser <> [].
Proof.
  intros Hopt. apply program_options_leave_printing in Hopt.
  unfold handleParseError. rewrite Hopt. simpl.
  destruct (IsFlagErrorType e ErrHelp); simpl; [|discriminate].
  destruct (Active (Command_ parser)); discriminate.
Qed.

Lemma outputs_map_Output (os : list Out) : outputs (map Output os) = os.
Proof.
  unfold outputs. induction os as [|o os IH]; simpl; [reflexivity|].
  rewrite IH. reflexivity.
Qed.

Lemma walletSteps_map_Output (os : list Out) : walletSteps (map Output os) = [].
Proof. induction os as [|o os IH]; simpl; auto. Qed.

Lemma outputs_app (a b : list Step) : outputs (a ++ b) = outputs a ++ outputs b.
Proof. apply flat_map_app. Qed.

Lemma walletSteps_app (a b : list Step) :
  walletSteps (a ++ b) = walletSteps a ++ walletSteps b.
Proof. apply filter_app. Qed.

(** X18: enterCliMode makes the process exit, with status 1, exactly when
    parsing failed, and then not without having printed something after
    its wallet steps; the wallet steps are none, or open and sync, or
    create, open and sync: a wallet that is created is always opened and
    synced, whatever the sync setting. *)
Theorem enterCliMode_exit_and_steps (appConfig : Config) (parsed : Command)
    (err : option parseError) :
  let run := enterCliMode flags_None HelpFlag PassDoubleDash PrintErrors
               IsFlagErrorType appConfig parsed err in
  (snd run = None <-> err = None)
  /\ (forall code, snd run = Some code -> code = 1 /\ outputs (fst run) <> [])
  /\ walletSteps (fst run)
     = (if CreateWallet appConfig
        then [CliCreateWallet; CliOpenWallet; CliSyncBlockChain]
        else if SyncBlockchain appConfig
             then [CliOpenWallet; CliSyncBlockChain]
             else []).
Proof.
  assert (Hsilent : forall e,
             handleParseError flags_None HelpFlag PrintErrors IsFlagErrorType
               (Some e)
               {| Options := N.lor HelpFlag PassDoubleDash;
                  Command_ := parsed |} <> []).
  { intros e. apply handleParseError_some_nonempty. right. reflexivity. }
  cbv zeta. unfold enterCliMode.
  destruct appConfig as [[|] [|]];
    cbn [CreateWallet SyncBlockchain];
    (destruct err as [e|];
     [destruct (IsFlagErrorType e ErrCommandRequired)|]);
    cbn [fst snd];
    (split; [split; first [discriminate|reflexivity]|]);
    (split;
     [intros code H; first [discriminate H|injection H as <-];
      (split; [reflexivity|]);
      rewrite ?outputs_app, ?outputs_map_Output;
      cbn [outputs flat_map app];
      first [exact (Hsilent e) | discriminate]
     |rewrite ?walletSteps_app, ?walletSteps_map_Output; reflexivity]).
Qed.

End FlagFacts.

Lemma handleParseError_never_silent_witness :
  (handleParseError ex_None ex_HelpFlag ex_PrintErrors ex_IsFlagErrorType
     (Some (FlagsError ErrHelp [])) ex_help_parser = []
   <-> Some (FlagsError ErrHelp []) = None)
  /\ (forall e, Some (FlagsError ErrHelp []) = Some e ->
        (ex_IsFlagErrorType e ErrHelp = false ->
         handleParseError ex_None ex_HelpFlag ex_PrintErrors ex_IsFlagErrorType
           (Some (FlagsError ErrHelp [])) ex_help_parser = [Println_error e])
        /\ (ex_IsFlagErrorType e ErrHelp = true ->
            ~ In (Println_error e)
                (handleParseError ex_None ex_HelpFlag ex_PrintErrors
                   ex_IsFlagErrorType (Some (FlagsError ErrHelp []))
                   ex_help_parser)
            /\ exists p, In (WriteHelp p)
                           (handleParseError ex_None ex_HelpFlag ex_PrintErrors
                              ex_IsFlagErrorType (Some (FlagsError ErrHelp []))
                              ex_help_parser))).
Proof.
  apply (@handleParseError_never_silent ex_None ex_HelpFlag ex_PassDoubleDash
           ex_PrintErrors ex_IsFlagErrorType).
  - reflexivity.
  - reflexivity.
  - reflexivity.
  - right. reflexivity.
Defined.

Lemma enterCliMode_exit_and_steps_witness :
  let run := enterCliMode ex_None ex_HelpFlag ex_PassDoubleDash ex_PrintErrors
               ex_IsFlagErrorType
               {| CreateWallet := true; SyncBlockchain := false |}
               ex_root (Some (FlagsError ErrCommandRequired [])) in
  (snd run = None <-> Some (FlagsError ErrCommandRequired []) = None)
  /\ (forall code, snd run = Some code -> code = 1 /\ outputs (fst run) <> [])
  /\ walletSteps (fst run)
     = [CliCreateWallet; CliOpenWallet; CliSyncBlockChain].
Proof.
  apply (@enterCliMode_exit_and_steps ex_None ex_HelpFlag ex_PassDoubleDash
           ex_PrintErrors ex_IsFlagErrorType eq_refl eq_refl eq_refl
           {| CreateWallet := true; SyncBlockchain := false |} ex_root
           (Some (FlagsError ErrCommandRequired []))).
Defined.

(** *** The history and receive commands *)

Section TableFacts.

Variable V : Type.

Lemma setIndex_at {A} (done : list A) (x v : A) (rest : list A) :
  setIndex (done ++ x :: rest) (List.length done) v = Some (done ++ v :: rest).
Proof.
  unfold setIndex.
  assert (Hlt : (List.length done <? List.length (done ++ x :: rest)) = true).
  { apply Nat.ltb_lt. rewrite length_app. simpl. lia. }
  rewrite Hlt. f_equal.
  rewrite firstn_app, firstn_all, Nat.sub_diag. cbn [firstn].
  rewrite app_nil_r.
  rewrite skipn_app, skipn_all2 by lia.
  replace (S (List.length done) - List.length done) with 1 by lia.
  reflexivity.
Qed.

Lemma fillRows_map (transactions : list (Transaction V)) : forall done,
  fillRows transactions (List.length done)
    (done ++ repeat [] (List.length transactions))
  = Some (done ++ map (@historyRow V) transactions).
Proof.
  induction transactions as [|tx rest IH]; intros done; simpl.
  - reflexivity.
  - rewrite setIndex_at.
    specialize (IH (done ++ [historyRow tx])).
    rewrite length_app in IH. simpl in IH.
    rewrite Nat.add_1_r, <- !app_assoc in IH. exact IH.
Qed.

(** X19: the history command never panics on its row assignments.  When the
    transactions are fetched it prints one table whose rows are the
    transactions in order, each row holding the five fields in the order of
    the five column headers; when fetching fails it returns that error and
    prints nothing. *)
Theorem HistoryCommand_Run_table (client : Client V) :
  match GetTransactions client with
  | (transactions, None) =>
      HistoryCommand_Run client
      = (Returned None,
         [CallGetTransactions V;
          PrintTabularResult historyColumns (map (@historyRow V) transactions)])
      /\ Forall (fun row => List.length row = List.length historyColumns)
            (map (@historyRow V) transactions)
      /\ List.length (map (@historyRow V) transactions)
         = List.length transactions
  | (_, Some e) =>
      HistoryCommand_Run client
      = (Returned (Some (External e)), [CallGetTransactions V])
  end.
Proof.
  unfold HistoryCommand_Run.
  destruct (GetTransactions client) as [transactions [e|]]; [reflexivity|].
  split; [|split].
  - pose proof (fillRows_map transactions []) as H. simpl in H.
    rewrite H. reflexivity.
  - apply Forall_forall. intros row Hin. apply in_map_iff in Hin.
    destruct Hin as (tx & <- & _). reflexivity.
  - apply length_map.
Qed.



End TableFacts.

End CommandFacts.
